(** * AIDL compiler command line: [Options::Options] of options.cpp

    A shallow embedding of the option resolver of the AIDL compiler front
    end (options.cpp) and the properties of it that the specification
    states.  The constructor is a pure function of the argument vector and
    of the default language; its three ways of ending (returning, calling
    [exit(0)] from [--help], leaving through an uncaught
    [std::out_of_range]) are the constructors of [Outcome]. *)

From Stdlib Require Import String Ascii List ZArith Lia Bool Arith DecimalString.
Import ListNotations.
Local Open Scope list_scope.
Local Open Scope string_scope.

(** ** Strings of the C++ standard library and of libbase *)

Module Str.

(** [std::endl] written to a stream: a line feed. *)
Definition endl : string := String (ascii_of_nat 10) EmptyString.

(** [strlen] / [std::string::length], as a mathematical integer. *)
Definition size (s : string) : Z := Z.of_nat (String.length s).

(** [size_t] is a 64-bit unsigned integer: subtraction wraps around. *)
Definition size_t_modulus : Z := 2 ^ 64.
Definition size_t_sub (a b : Z) : Z := (a - b) mod size_t_modulus.

(** The first [n] characters of [s], and [s] without them. *)
Fixpoint take (n : nat) (s : string) : string :=
  match n, s with
  | S n', String c s' => String c (take n' s')
  | _, _ => EmptyString
  end.

Fixpoint drop (n : nat) (s : string) : string :=
  match n, s with
  | S n', String _ s' => drop n' s'
  | _, _ => s
  end.

(** [std::string::replace(pos, n, r)]: throws [std::out_of_range] (here
    [None]) when [pos > size()]; otherwise the characters
    [pos, pos + min(n, size() - pos)) are replaced by [r]. *)
Definition replace (s : string) (pos n : Z) (r : string) : option string :=
  if (size s <? pos)%Z then None
  else
    let p := Z.to_nat pos in
    Some (take p s ++ r ++ drop (Z.to_nat n) (drop p s)).

(** [android::base::EndsWith(s, suffix)]. *)
Definition EndsWith (s suffix : string) : bool :=
  (String.length suffix <=? String.length s)%nat
  && String.eqb (drop (String.length s - String.length suffix) s) suffix.

(** [isspace] in the C locale: space, \t, \n, \v, \f, \r. *)
Definition isspace (c : ascii) : bool :=
  let n := nat_of_ascii c in
  (n =? 32)%nat || ((9 <=? n)%nat && (n <=? 13)%nat).

(** [android::base::Trim]: the substring from the first to the last
    character that is not white space, empty when there is none. *)
Fixpoint skip_leading (s : string) : string :=
  match s with
  | String c s' => if isspace c then skip_leading s' else s
  | EmptyString => EmptyString
  end.

Fixpoint skip_trailing (s : string) : string :=
  match s with
  | String c s' =>
      match skip_trailing s' with
      | EmptyString => if isspace c then EmptyString else String c EmptyString
      | t => String c t
      end
  | EmptyString => EmptyString
  end.

Definition Trim (s : string) : string := skip_trailing (skip_leading s).

(** Every character of [s] is white space. *)
Fixpoint all_space (s : string) : bool :=
  match s with
  | String c s' => isspace c && all_space s'
  | EmptyString => true
  end.

(** Strings that [size_t] can measure. *)
Definition representable (s : string) : Prop := (size s < size_t_modulus)%Z.

(** White space at the start and at the end of a string. *)
Definition starts_with_space (s : string) : bool :=
  match s with String c _ => isspace c | EmptyString => false end.

Fixpoint ends_with_space (s : string) : bool :=
  match s with
  | EmptyString => false
  | String c EmptyString => isspace c
  | String _ s' => ends_with_space s'
  end.

(** [operator<<(int)] for a count of arguments. *)
Definition of_count (n : nat) : string := NilZero.string_of_uint (Nat.to_uint n).

End Str.

(** ** getopt_long of the C library

    The GNU [getopt_long] in its default mode ([POSIXLY_CORRECT] unset, an
    option string that starts with neither [+] nor [-]): the argument
    vector is permuted, so that every element that is not an option is
    skipped and found, in its original order, from [optind] on once the
    scan has ended. *)

Module Getopt.

Inductive has_arg := no_argument | required_argument.

Record option := mk_option { name : string; arg : has_arg; val : ascii }.

(** What one call returns: an option character with [optarg], or ['?'].
    ['?'] is paired with [argv[optind]] as it stands when the call returns
    ([None]: [optind = argc], the null pointer that ends the vector). *)
Inductive result :=
| Opt (c : ascii) (optarg : string)
| Unrecognized (at_optind : Datatypes.option string).

(** The kinds of elements of the argument vector. *)
Inductive element :=
| NonOption
| EndOfOptions
| Long (body : string)
| Short (chars : string).

(** An element is an option when it starts with [-] and is longer than
    that; [--] alone ends the options; [--x] is always a long option. *)
Definition classify (tok : string) : element :=
  match tok with
  | String "-" (String "-" EmptyString) => EndOfOptions
  | String "-" (String "-" body) => Long body
  | String "-" (String c cs) => Short (String c cs)
  | _ => NonOption
  end.

(** The name of a long option ends at the first [=]. *)
Fixpoint split_name (body : string) : string * Datatypes.option string :=
  match body with
  | EmptyString => (EmptyString, None)
  | String c s =>
      if Ascii.eqb c "=" then (EmptyString, Some s)
      else let (n, v) := split_name s in (String c n, v)
  end.

Inductive found := Found (o : option) | Ambiguous | NotFound.

Definition same_option (p q : option) : bool :=
  match arg p, arg q with
  | no_argument, no_argument | required_argument, required_argument =>
      Ascii.eqb (val p) (val q)
  | _, _ => false
  end.

(** Look-up of a long option: an exact match first; failing that, the
    abbreviations, which are ambiguous when two of them differ. *)
Definition lookup (longopts : list option) (n : string) : found :=
  match find (fun p => String.eqb (name p) n) longopts with
  | Some p => Found p
  | None =>
      match filter (fun p => prefix n (name p)) longopts with
      | [] => NotFound
      | p :: ps => if forallb (same_option p) ps then Found p else Ambiguous
      end
  end.

(** One long option.  The boolean tells whether the next element of the
    vector was taken as the argument. *)
Definition long_option (longopts : list option) (body : string)
    (rest : list string) : result * bool :=
  let (n, v) := split_name body in
  match lookup longopts n with
  | Found p =>
      match v, arg p with
      | Some a, required_argument => (Opt (val p) a, false)
      | Some _, no_argument => (Unrecognized (hd_error rest), false)
      | None, required_argument =>
          match rest with
          | a :: _ => (Opt (val p) a, true)
          | [] => (Unrecognized None, false)
          end
      | None, no_argument => (Opt (val p) EmptyString, false)
      end
  | Ambiguous | NotFound => (Unrecognized (hd_error rest), false)
  end.

(** [strchr(optstring, c)] and the colon that may follow the character. *)
Fixpoint short_arg (optstring : string) (c : ascii) : Datatypes.option has_arg :=
  match optstring with
  | EmptyString => None
  | String d s =>
      if Ascii.eqb d c then
        match s with
        | String ":" _ => Some required_argument
        | _ => Some no_argument
        end
      else short_arg s c
  end.

(** The calls that scan one element [tok] of short options, [chars] being
    what is left of it.  [optind] moves past [tok] when its last character
    is taken. *)
Fixpoint short_options (optstring : string) (tok chars : string)
    (rest : list string) : list result * bool :=
  match chars with
  | EmptyString => ([], false)
  | String c chars' =>
      let at_optind :=
        match chars' with EmptyString => hd_error rest | _ => Some tok end in
      match (if Ascii.eqb c ":" then None else short_arg optstring c) with
      | None =>
          let (rs, b) := short_options optstring tok chars' rest in
          (Unrecognized at_optind :: rs, b)
      | Some no_argument =>
          let (rs, b) := short_options optstring tok chars' rest in
          (Opt c EmptyString :: rs, b)
      | Some required_argument =>
          match chars', rest with
          | String _ _, _ => ([Opt c chars'], false)
          | EmptyString, a :: _ => ([Opt c a], true)
          | EmptyString, [] => ([Unrecognized None], false)
          end
      end
  end.

(** The results of the successive calls of [getopt_long] on the elements
    [args] (the vector from [optind = 1] on) until it returns -1, and the
    elements found from [optind] on after that. *)
Fixpoint scan (optstring : string) (longopts : list option)
    (args : list string) : list result * list string :=
  match args with
  | [] => ([], [])
  | tok :: rest =>
      match classify tok with
      | NonOption =>
          let (rs, tail) := scan optstring longopts rest in (rs, tok :: tail)
      | EndOfOptions => ([], rest)
      | Long body =>
          let (r, taken) := long_option longopts body rest in
          let (rs, tail) :=
            match taken, rest with
            | true, _ :: rest' => scan optstring longopts rest'
            | _, _ => scan optstring longopts rest
            end in
          (r :: rs, tail)
      | Short chars =>
          let (rs1, taken) := short_options optstring tok chars rest in
          let (rs, tail) :=
            match taken, rest with
            | true, _ :: rest' => scan optstring longopts rest'
            | _, _ => scan optstring longopts rest
            end in
          ((rs1 ++ rs)%list, tail)
      end
  end.

End Getopt.

(** ** The configuration object *)

(** Modelled from the spec: the enumerations [Options::Language] and
    [Options::Task] are declared in options.h, which is not among the
    sources; the specification gives their values. *)
Inductive Language := JAVA | CPP.
Inductive Task := UNSPECIFIED | COMPILE | PREPROCESS | DUMPAPI.

Definition Language_eqb (a b : Language) : bool :=
  match a, b with JAVA, JAVA | CPP, CPP => true | _, _ => false end.

Definition Task_eqb (a b : Task) : bool :=
  match a, b with
  | UNSPECIFIED, UNSPECIFIED | COMPILE, COMPILE
  | PREPROCESS, PREPROCESS | DUMPAPI, DUMPAPI => true
  | _, _ => false
  end.

(** The data members of [Options]; [error_message_] is the text written to
    the string stream so far. *)
Record Options := mkOptions {
  myname_ : string;
  language_ : Language;
  task_ : Task;
  import_paths_ : list string;
  preprocessed_files_ : list string;
  dependency_file_ : string;
  gen_traces_ : bool;
  gen_transaction_names_ : bool;
  dependency_file_ninja_ : bool;
  output_dir_ : string;
  output_header_dir_ : string;
  fail_on_parcelable_ : bool;
  auto_dep_file_ : bool;
  input_files_ : list string;
  output_file_ : string;
  error_message_ : string
}.

(** Assignments to one member. *)
Definition set_language (v : Language) (o : Options) : Options :=
  mkOptions (myname_ o) v (task_ o) (import_paths_ o) (preprocessed_files_ o)
    (dependency_file_ o) (gen_traces_ o) (gen_transaction_names_ o)
    (dependency_file_ninja_ o) (output_dir_ o) (output_header_dir_ o)
    (fail_on_parcelable_ o) (auto_dep_file_ o) (input_files_ o)
    (output_file_ o) (error_message_ o).

Definition set_task (v : Task) (o : Options) : Options :=
  mkOptions (myname_ o) (language_ o) v (import_paths_ o) (preprocessed_files_ o)
    (dependency_file_ o) (gen_traces_ o) (gen_transaction_names_ o)
    (dependency_file_ninja_ o) (output_dir_ o) (output_header_dir_ o)
    (fail_on_parcelable_ o) (auto_dep_file_ o) (input_files_ o)
    (output_file_ o) (error_message_ o).

Definition set_import_paths (v : list string) (o : Options) : Options :=
  mkOptions (myname_ o) (language_ o) (task_ o) v (preprocessed_files_ o)
    (dependency_file_ o) (gen_traces_ o) (gen_transaction_names_ o)
    (dependency_file_ninja_ o) (output_dir_ o) (output_header_dir_ o)
    (fail_on_parcelable_ o) (auto_dep_file_ o) (input_files_ o)
    (output_file_ o) (error_message_ o).

Definition set_preprocessed_files (v : list string) (o : Options) : Options :=
  mkOptions (myname_ o) (language_ o) (task_ o) (import_paths_ o) v
    (dependency_file_ o) (gen_traces_ o) (gen_transaction_names_ o)
    (dependency_file_ninja_ o) (output_dir_ o) (output_header_dir_ o)
    (fail_on_parcelable_ o) (auto_dep_file_ o) (input_files_ o)
    (output_file_ o) (error_message_ o).

Definition set_dependency_file (v : string) (o : Options) : Options :=
  mkOptions (myname_ o) (language_ o) (task_ o) (import_paths_ o)
    (preprocessed_files_ o) v (gen_traces_ o) (gen_transaction_names_ o)
    (dependency_file_ninja_ o) (output_dir_ o) (output_header_dir_ o)
    (fail_on_parcelable_ o) (auto_dep_file_ o) (input_files_ o)
    (output_file_ o) (error_message_ o).

Definition set_gen_traces (v : bool) (o : Options) : Options :=
  mkOptions (myname_ o) (language_ o) (task_ o) (import_paths_ o)
    (preprocessed_files_ o) (dependency_file_ o) v (gen_transaction_names_ o)
    (dependency_file_ninja_ o) (output_dir_ o) (output_header_dir_ o)
    (fail_on_parcelable_ o) (auto_dep_file_ o) (input_files_ o)
    (output_file_ o) (error_message_ o).

Definition set_gen_transaction_names (v : bool) (o : Options) : Options :=
  mkOptions (myname_ o) (language_ o) (task_ o) (import_paths_ o)
    (preprocessed_files_ o) (dependency_file_ o) (gen_traces_ o) v
    (dependency_file_ninja_ o) (output_dir_ o) (output_header_dir_ o)
    (fail_on_parcelable_ o) (auto_dep_file_ o) (input_files_ o)
    (output_file_ o) (error_message_ o).

Definition set_dependency_file_ninja (v : bool) (o : Options) : Options :=
  mkOptions (myname_ o) (language_ o) (task_ o) (import_paths_ o)
    (preprocessed_files_ o) (dependency_file_ o) (gen_traces_ o)
    (gen_transaction_names_ o) v (output_dir_ o) (output_header_dir_ o)
    (fail_on_parcelable_ o) (auto_dep_file_ o) (input_files_ o)
    (output_file_ o) (error_message_ o).

Definition set_output_dir (v : string) (o : Options) : Options :=
  mkOptions (myname_ o) (language_ o) (task_ o) (import_paths_ o)
    (preprocessed_files_ o) (dependency_file_ o) (gen_traces_ o)
    (gen_transaction_names_ o) (dependency_file_ninja_ o) v
    (output_header_dir_ o) (fail_on_parcelable_ o) (auto_dep_file_ o)
    (input_files_ o) (output_file_ o) (error_message_ o).

Definition set_output_header_dir (v : string) (o : Options) : Options :=
  mkOptions (myname_ o) (language_ o) (task_ o) (import_paths_ o)
    (preprocessed_files_ o) (dependency_file_ o) (gen_traces_ o)
    (gen_transaction_names_ o) (dependency_file_ninja_ o) (output_dir_ o) v
    (fail_on_parcelable_ o) (auto_dep_file_ o) (input_files_ o)
    (output_file_ o) (error_message_ o).

Definition set_fail_on_parcelable (v : bool) (o : Options) : Options :=
  mkOptions (myname_ o) (language_ o) (task_ o) (import_paths_ o)
    (preprocessed_files_ o) (dependency_file_ o) (gen_traces_ o)
    (gen_transaction_names_ o) (dependency_file_ninja_ o) (output_dir_ o)
    (output_header_dir_ o) v (auto_dep_file_ o) (input_files_ o)
    (output_file_ o) (error_message_ o).

Definition set_auto_dep_file (v : bool) (o : Options) : Options :=
  mkOptions (myname_ o) (language_ o) (task_ o) (import_paths_ o)
    (preprocessed_files_ o) (dependency_file_ o) (gen_traces_ o)
    (gen_transaction_names_ o) (dependency_file_ninja_ o) (output_dir_ o)
    (output_header_dir_ o) (fail_on_parcelable_ o) v (input_files_ o)
    (output_file_ o) (error_message_ o).

Definition set_input_files (v : list string) (o : Options) : Options :=
  mkOptions (myname_ o) (language_ o) (task_ o) (import_paths_ o)
    (preprocessed_files_ o) (dependency_file_ o) (gen_traces_ o)
    (gen_transaction_names_ o) (dependency_file_ninja_ o) (output_dir_ o)
    (output_header_dir_ o) (fail_on_parcelable_ o) (auto_dep_file_ o) v
    (output_file_ o) (error_message_ o).

Definition set_output_file (v : string) (o : Options) : Options :=
  mkOptions (myname_ o) (language_ o) (task_ o) (import_paths_ o)
    (preprocessed_files_ o) (dependency_file_ o) (gen_traces_ o)
    (gen_transaction_names_ o) (dependency_file_ninja_ o) (output_dir_ o)
    (output_header_dir_ o) (fail_on_parcelable_ o) (auto_dep_file_ o)
    (input_files_ o) v (error_message_ o).

(** [error_message_ << text]. *)
Definition error (text : string) (o : Options) : Options :=
  mkOptions (myname_ o) (language_ o) (task_ o) (import_paths_ o)
    (preprocessed_files_ o) (dependency_file_ o) (gen_traces_ o)
    (gen_transaction_names_ o) (dependency_file_ninja_ o) (output_dir_ o)
    (output_header_dir_ o) (fail_on_parcelable_ o) (auto_dep_file_ o)
    (input_files_ o) (output_file_ o) (error_message_ o ++ text).

(** [emplace_back] on the three vectors. *)
Definition add_import_path (v : string) (o : Options) : Options :=
  set_import_paths (import_paths_ o ++ [v])%list o.
Definition add_preprocessed_file (v : string) (o : Options) : Options :=
  set_preprocessed_files (preprocessed_files_ o ++ [v])%list o.
Definition add_input_file (v : string) (o : Options) : Options :=
  set_input_files (input_files_ o ++ [v])%list o.

(** ** The usage text *)

Import Str.

Definition line (s : string) : string := s ++ endl.

(** [Options::GetUsage]. *)
Definition GetUsage (o : Options) : string :=
  let myname_ := myname_ o in
  line "usage:"
  ++ line (myname_ ++ " --lang={java|cpp} [OPTION]... INPUT...")
  ++ line "   Generate Java or C++ files for AIDL file(s)."
  ++ endl
  ++ line (myname_ ++ " --preprocess OUTPUT INPUT...")
  ++ line "   Create an AIDL file having declarations of AIDL file(s)."
  ++ endl
  ++ line (myname_ ++ " --dumpapi OUTPUT INPUT...")
  ++ line "   Dump API signature of AIDL file(s)."
  ++ endl
  ++ match language_ o with
     | JAVA =>
         line (myname_ ++ " [OPTION]... INPUT [OUTPUT]")
         ++ line "   Generate a Java file for an AIDL file."
         ++ endl
     | CPP =>
         line (myname_ ++ " [OPTION]... INPUT HEADER_DIR OUTPUT")
         ++ line "   Generate C++ headers and source for an AIDL file."
         ++ endl
     end
  ++ line "OPTION:"
  ++ line "  -I DIR, --include=DIR"
  ++ line "          Use DIR as a search path for import statements."
  ++ line "  -p FILE, --preprocessed=FILE"
  ++ line "          Include FILE which is created by --preprocess."
  ++ line "  -d FILE, --dep=FILE"
  ++ line "          Generate dependency file as FILE. Don't use this when"
  ++ line "          there are multiple input files. Use -a then."
  ++ line "  -o DIR, --out=DIR"
  ++ line "          Use DIR as the base output directory for generated files."
  ++ line "  -h DIR, --header_out=DIR"
  ++ line "          Generate C++ headers under DIR."
  ++ line "  -a"
  ++ line "          Generate dependency file next to the output file with the"
  ++ line "          name based on the input file."
  ++ line "  -b"
  ++ line "          Trigger fail when trying to compile a parcelable."
  ++ line "  --ninja"
  ++ line "          Generate dependency file in a format ninja understands."
  ++ line "  -t, --trace"
  ++ line "          Include tracing code for systrace. Note that if either"
  ++ line "          the client or service code is not auto-generated by this"
  ++ line "          tool, that part will not be traced."
  ++ line "  --transaction_names"
  ++ line "          Generate transaction names."
  ++ line "  --help"
  ++ line "          Show this help."
  ++ endl
  ++ line "INPUT:"
  ++ line "  An AIDL file."
  ++ endl
  ++ line "OUTPUT:"
  ++ line "  Path to the generated Java or C++ source file. This is ignored when"
  ++ line "  -o or --out is specified or the number of the input files are"
  ++ line "  more than one."
  ++ line "  For Java, if omitted, Java source file is generated at the same"
  ++ line "  place as the input AIDL file,"
  ++ endl
  ++ line "HEADER_DIR:"
  ++ line "  Path to where C++ headers are generated.".

(** ** The constructor [Options::Options] *)

(** The tables handed to [getopt_long]. *)
Definition long_options : list Getopt.option :=
  [ Getopt.mk_option "lang" Getopt.required_argument "l";
    Getopt.mk_option "preprocess" Getopt.no_argument "s";
    Getopt.mk_option "dumpapi" Getopt.no_argument "u";
    Getopt.mk_option "include" Getopt.required_argument "I";
    Getopt.mk_option "preprocessed" Getopt.required_argument "p";
    Getopt.mk_option "dep" Getopt.required_argument "d";
    Getopt.mk_option "out" Getopt.required_argument "o";
    Getopt.mk_option "header_out" Getopt.required_argument "h";
    Getopt.mk_option "ninja" Getopt.no_argument "n";
    Getopt.mk_option "trace" Getopt.no_argument "t";
    Getopt.mk_option "transaction_names" Getopt.no_argument "c";
    Getopt.mk_option "help" Getopt.no_argument "e" ].

Definition optstring : string := "I:p:d:o:h:abt".

(** The results of the calls of [getopt_long] in the loop, and the
    positional arguments [argv[optind..argc)] left when it returns -1. *)
Definition getopt_long (args : list string) : list Getopt.result * list string :=
  Getopt.scan optstring long_options args.

(** How the constructor ends: it returns (with or without error text),
    [--help] ends the process, or [std::string::replace] throws. *)
Inductive Outcome :=
| Constructed (o : Options)
| Exited (status : Z) (cerr : string)
| OutOfRange.

(** How one turn of the loop ends. [lang_option_found] is the local flag. *)
Inductive Control :=
| Break (o : Options) (lang_option_found : bool)
| Return (o : Options)
| Exit (status : Z) (cerr : string).

(** [<< argv[optind]] in the default case.  At [optind = argc] the pointer
    is null: the stream takes no character and goes bad, so that what is
    written after it is lost. *)
Definition invalid_argument (at_optind : option string) : string :=
  match at_optind with
  | Some a => "Invalid argument: '" ++ a ++ "'" ++ endl
  | None => "Invalid argument: '"
  end.

(** The [switch] on the result [c] of [getopt_long].  The last branch is
    the [default] label for a character without a [case]; with the tables
    above [getopt_long] returns none. *)
Definition switch (r : Getopt.result) (o : Options) (lang_option_found : bool)
  : Control :=
  match r with
  | Getopt.Unrecognized at_optind => Return (error (invalid_argument at_optind) o)
  | Getopt.Opt c optarg =>
      if Ascii.eqb c "l" then
        match language_ o with
        | CPP => Return (error ("aidl-cpp does not support --lang." ++ endl) o)
        | JAVA =>
            let lang := Trim optarg in
            if String.eqb lang "java" then
              Break (set_task COMPILE (set_language JAVA o)) true
            else if String.eqb lang "cpp" then
              Break (set_task COMPILE (set_language CPP o)) true
            else
              Return (error ("Unsupported language: '" ++ lang ++ "'" ++ endl) o)
        end
      else if Ascii.eqb c "s" then
        Break (if Task_eqb (task_ o) UNSPECIFIED then o else set_task PREPROCESS o)
              lang_option_found
      else if Ascii.eqb c "u" then
        Break (if Task_eqb (task_ o) UNSPECIFIED then o else set_task DUMPAPI o)
              lang_option_found
      else if Ascii.eqb c "I" then
        Break (add_import_path (Trim optarg) o) lang_option_found
      else if Ascii.eqb c "p" then
        Break (add_preprocessed_file (Trim optarg) o) lang_option_found
      else if Ascii.eqb c "d" then
        Break (set_dependency_file (Trim optarg) o) lang_option_found
      else if Ascii.eqb c "o" then
        Break (set_output_dir (Trim optarg) o) lang_option_found
      else if Ascii.eqb c "h" then
        Break (set_output_header_dir (Trim optarg) o) lang_option_found
      else if Ascii.eqb c "n" then
        Break (set_dependency_file_ninja true o) lang_option_found
      else if Ascii.eqb c "t" then
        Break (set_gen_traces true o) lang_option_found
      else if Ascii.eqb c "a" then
        Break (set_auto_dep_file true o) lang_option_found
      else if Ascii.eqb c "b" then
        Break (set_fail_on_parcelable true o) lang_option_found
      else if Ascii.eqb c "c" then
        Break (set_gen_transaction_names true o) lang_option_found
      else if Ascii.eqb c "e" then
        Exit 0 (GetUsage o)
      else
        Return (error (invalid_argument None) o)
  end.

(** The [while (true)] loop, over the results of [getopt_long]; the end of
    the list is the result -1. *)
Fixpoint option_loop (rs : list Getopt.result) (o : Options)
    (lang_option_found : bool) : Control :=
  match rs with
  | [] => Break o lang_option_found
  | r :: rs' =>
      match switch r o lang_option_found with
      | Break o' found' => option_loop rs' o' found'
      | stop => stop
      end
  end.

(** The report of the arguments left over in the legacy format. *)
Definition too_many_arguments (tail : list string) (o : Options) : Options :=
  match tail with
  | [] => o
  | _ :: _ =>
      error ("Too many arguments: "
             ++ String.concat "" (map (fun a => " " ++ a) tail) ++ endl) o
  end.

(** The legacy arguments format, [tail] being [argv[optind..argc)]. *)
Definition legacy_arguments (o : Options) (tail : list string) : Outcome :=
  match tail with
  | [] => Constructed (error ("No input file" ++ endl) o)
  | input :: tail1 =>
      match language_ o with
      | JAVA =>
          let o := add_input_file input o in
          match tail1 with
          | output :: tail2 =>
              Constructed (too_many_arguments tail2 (set_output_file output o))
          | [] =>
              let output_file := hd "" (input_files_ o) in
              match
                replace output_file
                  (size_t_sub (size output_file) (size ".aidl"))
                  (size ".aidl") ".java"
              with
              | Some s => Constructed (set_output_file s o)
              | None => OutOfRange
              end
          end
      | CPP =>
          let o := add_input_file input o in
          match tail1 with
          | header_dir :: output :: tail2 =>
              Constructed
                (too_many_arguments tail2
                   (set_output_file output (set_output_header_dir header_dir o)))
          | _ => Constructed (error ("No HEADER_DIR or OUTPUT." ++ endl) o)
          end
      end
  end.

Definition empty (s : string) : bool := String.eqb s "".

(** The checks under "filter out invalid combinations": the first one that
    fails writes its message and returns. *)
Definition filter_invalid_combinations (o : Options) : Options :=
  let compile := Task_eqb (task_ o) COMPILE in
  let cpp := Language_eqb (language_ o) CPP in
  let java := Language_eqb (language_ o) JAVA in
  let multiple := (1 <? List.length (input_files_ o))%nat in
  match find (fun input => negb (EndsWith input ".aidl")) (input_files_ o) with
  | Some input =>
      error ("Expected .aidl file for input but got '" ++ input ++ "'" ++ endl) o
  | None =>
      if cpp && compile && empty (output_dir_ o) then
        error ("Output directory is not set. Set with --out." ++ endl) o
      else if cpp && compile && empty (output_header_dir_ o) then
        error ("Header output directory is not set. Set with "
               ++ "--header_out." ++ endl) o
      else if java && compile && empty (output_dir_ o) then
        error ("Output directory is not set. Set with --out." ++ endl) o
      else if java && compile && negb (empty (output_header_dir_ o)) then
        error ("Header output directory is set, which does not make "
               ++ "sense for Java." ++ endl) o
      else if compile && negb (empty (output_file_ o)) && multiple then
        error ("Multiple AIDL files can't be compiled to a single "
               ++ "output file '" ++ output_file_ o ++ "'. "
               ++ "Use --out=DIR instead for output files." ++ endl) o
      else if compile && negb (empty (dependency_file_ o)) && multiple then
        error ("-d or --dep doesn't work when compiling multiple AIDL "
               ++ "files. Use '-a' to generate dependency file next to "
               ++ "the output file with the name based on the input "
               ++ "file." ++ endl) o
      else o
  end.

(** The new arguments format, followed by the checks. *)
Definition new_arguments (o : Options) (tail : list string) : Outcome :=
  match task_ o with
  | COMPILE =>
      match tail with
      | [] => Constructed (error ("No input file." ++ endl) o)
      | _ :: _ =>
          Constructed
            (filter_invalid_combinations
               (set_input_files (input_files_ o ++ tail)%list o))
      end
  | _ =>
      match tail with
      | output :: ((_ :: _) as inputs) =>
          Constructed
            (filter_invalid_combinations
               (set_input_files (input_files_ o ++ inputs)%list
                  (set_output_file output o)))
      | _ =>
          Constructed
            (error ("Insufficient arguments. At least 2 required, but "
                    ++ "got " ++ of_count (List.length tail) ++ "." ++ endl) o)
      end
  end.

(** The positional arguments. *)
Definition positional_arguments (o : Options) (lang_option_found : bool)
    (tail : list string) : Outcome :=
  if negb lang_option_found && Task_eqb (task_ o) COMPILE
  then legacy_arguments o tail
  else new_arguments o tail.

(** The members before the body of the constructor runs: [myname_] and
    [language_] come from the initialiser list, the others from their
    declarations in options.h, which is not among the sources.  The start
    value of [task_] is therefore a parameter, [task0].  (The legacy
    format is selected for a task COMPILE that [--lang] did not set: it
    can be reached only when [task0] is COMPILE.)  The strings and
    vectors start empty, as default-constructed, and the booleans, which
    the options can only set, start false. *)
Definition initial (task0 : Task) (myname : string) (default_lang : Language)
  : Options :=
  mkOptions myname default_lang task0 [] [] "" false false false "" ""
    false false [] "" "".

(** [Options::Options(argc, argv, default_lang)] for
    [argv = argv0 :: args]. *)
Definition Options_Options (task0 : Task) (argv0 : string) (args : list string)
    (default_lang : Language) : Outcome :=
  let (rs, tail) := getopt_long args in
  match option_loop rs (initial task0 argv0 default_lang) false with
  | Return o => Constructed o
  | Exit status cerr => Exited status cerr
  | Break o lang_option_found => positional_arguments o lang_option_found tail
  end.

(** The construction produced a valid configuration [o]. *)
Definition valid (r : Outcome) (o : Options) : Prop :=
  r = Constructed o /\ error_message_ o = "".

(** ** Vocabulary of the statements *)

(** An input file with the extension the checks ask for. *)
Definition is_aidl (input : string) : Prop := EndsWith input ".aidl" = true.

(** What [--preprocess] and [--dumpapi] write to [task_]. *)
Definition guarded_task (current new : Task) : Task :=
  match current with
  | UNSPECIFIED => UNSPECIFIED
  | _ => new
  end.

(** The options that take a value to store: the character that
    [getopt_long] returns, the two spellings and the assignment made. *)
Definition value_options
  : list (ascii * string * string * (string -> Options -> Options)) :=
  [ ("I"%char, "-I", "--include", add_import_path);
    ("p"%char, "-p", "--preprocessed", add_preprocessed_file);
    ("d"%char, "-d", "--dep", set_dependency_file);
    ("o"%char, "-o", "--out", set_output_dir);
    ("h"%char, "-h", "--header_out", set_output_header_dir) ].

(** The option characters that have a [case] in the [switch]. *)
Definition handled : list ascii :=
  ["l"; "s"; "u"; "I"; "p"; "d"; "o"; "h"; "n"; "t"; "a"; "b"; "c"; "e"]%char.

Definition known (r : Getopt.result) : Prop :=
  match r with
  | Getopt.Opt c _ => In c handled
  | Getopt.Unrecognized _ => True
  end.

(** The requirements that the checks under "filter out invalid
    combinations" enforce, said of a state: the extension of the inputs,
    the output directories of a compilation to C++ and to Java, and one
    output file or dependency file for one input only. *)
Definition accepted (o : Options) : Prop :=
  Forall is_aidl (input_files_ o)
  /\ (task_ o = COMPILE -> language_ o = CPP ->
      output_dir_ o <> "" /\ output_header_dir_ o <> "")
  /\ (task_ o = COMPILE -> language_ o = JAVA ->
      output_dir_ o <> "" /\ output_header_dir_ o = "")
  /\ (task_ o = COMPILE -> output_file_ o <> "" ->
      List.length (input_files_ o) <= 1)
  /\ (task_ o = COMPILE -> dependency_file_ o <> "" ->
      List.length (input_files_ o) <= 1).

(** The values that [getopt_long] returned with the option character [c],
    in their order, and whether it returned [c] at all. *)
Fixpoint values (c : ascii) (rs : list Getopt.result) : list string :=
  match rs with
  | [] => []
  | Getopt.Opt d a :: rs' =>
      if Ascii.eqb d c then a :: values c rs' else values c rs'
  | Getopt.Unrecognized _ :: rs' => values c rs'
  end.

Definition seen (c : ascii) (rs : list Getopt.result) : bool :=
  existsb (fun r => match r with
                    | Getopt.Opt d _ => Ascii.eqb d c
                    | Getopt.Unrecognized _ => false
                    end) rs.

(** An element of the argument vector that is not an option. *)
Definition positional (tok : string) : Prop :=
  Getopt.classify tok = Getopt.NonOption.

(** The messages of the checks that the statements name. *)
Definition expected_aidl (input : string) : string :=
  "Expected .aidl file for input but got '" ++ input ++ "'" ++ endl.

Definition dependency_conflict : string :=
  "-d or --dep doesn't work when compiling multiple AIDL "
  ++ "files. Use '-a' to generate dependency file next to "
  ++ "the output file with the name based on the input "
  ++ "file." ++ endl.

(** Two states that differ in [task_] at most. *)
Definition same_but_task (o o' : Options) : Prop :=
  myname_ o' = myname_ o /\ language_ o' = language_ o
  /\ import_paths_ o' = import_paths_ o
  /\ preprocessed_files_ o' = preprocessed_files_ o
  /\ dependency_file_ o' = dependency_file_ o
  /\ gen_traces_ o' = gen_traces_ o
  /\ gen_transaction_names_ o' = gen_transaction_names_ o
  /\ dependency_file_ninja_ o' = dependency_file_ninja_ o
  /\ output_dir_ o' = output_dir_ o
  /\ output_header_dir_ o' = output_header_dir_ o
  /\ fail_on_parcelable_ o' = fail_on_parcelable_ o
  /\ auto_dep_file_ o' = auto_dep_file_ o
  /\ input_files_ o' = input_files_ o
  /\ output_file_ o' = output_file_ o
  /\ error_message_ o' = error_message_ o.


(** * Properties *)

(** ** Strings *)

Module StrFacts.

Lemma append_empty_r (s : string) : s ++ "" = s.
Proof. induction s as [|c s IH]; simpl; [reflexivity | now rewrite IH]. Qed.

Lemma append_assoc (s t u : string) : (s ++ t) ++ u = s ++ t ++ u.
Proof. induction s as [|c s IH]; simpl; [reflexivity | now rewrite IH]. Qed.

Lemma length_append (s t : string) :
  String.length (s ++ t) = String.length s + String.length t.
Proof. induction s as [|c s IH]; simpl; [reflexivity | now rewrite IH]. Qed.

Lemma append_not_empty (s : string) (c : ascii) (t : string) :
  s ++ String c t <> "".
Proof. destruct s; discriminate. Qed.

Lemma take_append (s t : string) : take (String.length s) (s ++ t) = s.
Proof. induction s as [|c s IH]; simpl; [now destruct t | now rewrite IH]. Qed.

Lemma drop_append (s t : string) : drop (String.length s) (s ++ t) = t.
Proof. induction s as [|c s IH]; simpl; [now destruct t | exact IH]. Qed.

Lemma take_drop (n : nat) (s : string) : take n s ++ drop n s = s.
Proof.
  revert s; induction n as [|n IH]; intros [|c s]; simpl; try reflexivity.
  now rewrite IH.
Qed.

Lemma length_drop (n : nat) (s : string) :
  String.length (drop n s) = String.length s - n.
Proof.
  revert s; induction n as [|n IH]; intros [|c s]; simpl; try reflexivity.
  apply IH.
Qed.

Lemma drop_all (n : nat) (s : string) : String.length s <= n -> drop n s = "".
Proof.
  revert s; induction n as [|n IH]; intros [|c s]; simpl; intros H;
    try reflexivity; try lia.
  apply IH; lia.
Qed.

(** [EndsWith] holds exactly of the strings that are some stem followed by
    the suffix. *)
Lemma EndsWith_append (stem suffix : string) : EndsWith (stem ++ suffix) suffix = true.
Proof.
  unfold EndsWith. rewrite length_append.
  replace (String.length stem + String.length suffix - String.length suffix)
    with (String.length stem) by lia.
  rewrite drop_append, String.eqb_refl, andb_true_r.
  apply Nat.leb_le; lia.
Qed.

Lemma EndsWith_inv (s suffix : string) :
  EndsWith s suffix = true -> exists stem, s = stem ++ suffix.
Proof.
  unfold EndsWith. intros H. apply andb_prop in H as [_ H].
  apply String.eqb_eq in H.
  remember (String.length s - String.length suffix) as n eqn:Hn.
  exists (take n s). rewrite <- H. symmetry. apply take_drop.
Qed.

(** The position handed to [replace] in the legacy Java format. *)
Lemma size_t_sub_no_wrap (s : string) (k : Z) :
  representable s -> (0 <= k <= size s)%Z -> size_t_sub (size s) k = (size s - k)%Z.
Proof.
  unfold representable, size_t_sub. intros Hr Hk.
  apply Z.mod_small. unfold size in *. lia.
Qed.

Lemma size_t_sub_wraps (s : string) (k : Z) :
  (size s < k < size_t_modulus)%Z -> (size s < size_t_sub (size s) k)%Z.
Proof.
  unfold size_t_sub, size. intros Hk.
  assert (Hm : (0 < size_t_modulus)%Z) by reflexivity.
  replace (Z.of_nat (String.length s) - k)%Z
    with ((Z.of_nat (String.length s) - k + size_t_modulus) + (-1) * size_t_modulus)%Z
    by ring.
  rewrite Z.mod_add by lia.
  rewrite Z.mod_small; lia.
Qed.

(** Replacing the last [String.length old] characters. *)
Lemma replace_suffix (stem old new : string) :
  representable (stem ++ old) ->
  replace (stem ++ old) (size_t_sub (size (stem ++ old)) (size old)) (size old) new
  = Some (stem ++ new).
Proof.
  intros Hr. rewrite size_t_sub_no_wrap; trivial.
  2:{ unfold size. rewrite length_append. lia. }
  unfold replace.
  assert (Hp : (size (stem ++ old) - size old)%Z = Z.of_nat (String.length stem)).
  { unfold size. rewrite length_append. lia. }
  rewrite Hp.
  destruct (Z.ltb_spec (size (stem ++ old)) (Z.of_nat (String.length stem))) as [H|_].
  { unfold size in H. rewrite length_append in H. lia. }
  unfold size. rewrite !Nat2Z.id, take_append, drop_append.
  rewrite drop_all by lia. now rewrite append_empty_r.
Qed.

(** Replacing the last [k] characters of a string that has that many,
    whatever they are. *)
Lemma replace_last (s : string) (k : nat) (new : string) :
  representable s -> k <= String.length s ->
  replace s (size_t_sub (size s) (Z.of_nat k)) (Z.of_nat k) new
  = Some (take (String.length s - k) s ++ new).
Proof.
  intros Hr Hk.
  pose proof (take_drop (String.length s - k) s) as Hs.
  pose proof (length_drop (String.length s - k) s) as Hold.
  remember (take (String.length s - k) s) as stem eqn:Hstem.
  remember (drop (String.length s - k) s) as old eqn:Hdrop.
  clear Hstem Hdrop.
  replace (Z.of_nat k) with (size old) by (unfold size; lia).
  subst s. now apply replace_suffix.
Qed.

(** When the position wraps around, [replace] throws. *)
Lemma replace_throws (s : string) (k : Z) (new : string) :
  (size s < k < size_t_modulus)%Z ->
  replace s (size_t_sub (size s) k) k new = None.
Proof.
  intros Hk. unfold replace.
  pose proof (size_t_sub_wraps s k Hk) as H.
  apply Z.ltb_lt in H. now rewrite H.
Qed.

(** *** [Trim] removes the surrounding white space and nothing else *)

Lemma skip_leading_spec (s : string) :
  exists l, s = l ++ skip_leading s /\ all_space l = true
            /\ starts_with_space (skip_leading s) = false.
Proof.
  induction s as [|c s (l & Hs & Hl & Hst)]; simpl.
  - exists ""; auto.
  - destruct (isspace c) eqn:Hc.
    + exists (String c l); simpl. rewrite Hc, Hl. now rewrite <- Hs.
    + exists ""; simpl. auto.
Qed.

Lemma skip_trailing_spec (s : string) :
  exists r, s = skip_trailing s ++ r /\ all_space r = true
            /\ ends_with_space (skip_trailing s) = false.
Proof.
  induction s as [|c s (r & Hs & Hr & Hend)]; simpl.
  - exists ""; auto.
  - destruct (skip_trailing s) as [|a t] eqn:E.
    + simpl in Hs. subst r. destruct (isspace c) eqn:Hc.
      * exists (String c s); simpl. now rewrite Hc, Hr.
      * exists s; simpl. auto.
    + exists r. simpl in *. now rewrite <- Hs.
Qed.

Lemma skip_trailing_start (s : string) :
  starts_with_space s = false -> starts_with_space (skip_trailing s) = false.
Proof.
  destruct s as [|c s]; simpl; trivial.
  intros Hc. destruct (skip_trailing s); simpl; trivial.
  now rewrite Hc.
Qed.

Lemma Trim_spec (v : string) :
  exists l r, v = l ++ Trim v ++ r
              /\ all_space l = true /\ all_space r = true
              /\ starts_with_space (Trim v) = false
              /\ ends_with_space (Trim v) = false.
Proof.
  destruct (skip_leading_spec v) as (l & Hv & Hl & Hst).
  destruct (skip_trailing_spec (skip_leading v)) as (r & Hs & Hr & Hend).
  exists l, r. unfold Trim. rewrite <- Hs.
  repeat split; trivial. now apply skip_trailing_start.
Qed.

End StrFacts.

(** ** What [getopt_long] returns

    Every option character returned for the two tables of this program
    has its [case] in the [switch]: the [default] label is reached by ['?']
    alone. *)

Module GetoptFacts.

Lemma lookup_In longopts n p :
  Getopt.lookup longopts n = Getopt.Found p -> In p longopts.
Proof.
  unfold Getopt.lookup.
  destruct (find _ longopts) as [q|] eqn:F.
  - intros H; inversion H; subst. now apply find_some in F.
  - destruct (filter _ longopts) as [|q qs] eqn:Fl; [discriminate |].
    destruct (forallb _ qs); [|discriminate].
    intros H; inversion H; subst.
    assert (Hin : In p (filter (fun p0 => prefix n (Getopt.name p0)) longopts))
      by (rewrite Fl; now left).
    now apply filter_In in Hin.
Qed.

Lemma long_options_handled p : In p long_options -> In (Getopt.val p) handled.
Proof.
  unfold long_options, handled.
  intros H; repeat (destruct H as [H|H]; [subst p; simpl; tauto |]).
  contradiction.
Qed.

Lemma long_option_known body rest r b :
  Getopt.long_option long_options body rest = (r, b) -> known r.
Proof.
  unfold Getopt.long_option.
  destruct (Getopt.split_name body) as [n v].
  destruct (Getopt.lookup long_options n) as [p| |] eqn:Lk;
    try (intros H; inversion H; exact I).
  apply lookup_In, long_options_handled in Lk.
  destruct v, (Getopt.arg p), rest; intros H; inversion H; subst; simpl; trivial.
Qed.

Lemma short_arg_handled c a :
  (if Ascii.eqb c ":" then None else Getopt.short_arg optstring c) = Some a ->
  In c handled.
Proof.
  destruct (Ascii.eqb c ":") eqn:E; [discriminate |].
  unfold optstring. cbn [Getopt.short_arg].
  repeat match goal with
         | |- context [Ascii.eqb ?d c] =>
             let H := fresh "H" in
             destruct (Ascii.eqb d c) eqn:H;
             [apply Ascii.eqb_eq in H; subst c; intros _;
              first [discriminate E | simpl; tauto] |]
         end.
  discriminate.
Qed.

Lemma short_options_known tok chars rest rs b :
  Getopt.short_options optstring tok chars rest = (rs, b) -> Forall known rs.
Proof.
  revert rs b. induction chars as [|c chars IH];
    cbn [Getopt.short_options]; intros rs b H.
  - inversion H; constructor.
  - destruct (if Ascii.eqb c ":" then None else Getopt.short_arg optstring c)
      as [[|]|] eqn:A.
    + destruct (Getopt.short_options optstring tok chars rest) as [rs' b'].
      inversion H; subst. constructor; [| eapply IH; reflexivity].
      eapply short_arg_handled; eauto.
    + apply short_arg_handled in A.
      destruct chars, rest; inversion H; subst;
        (constructor; [simpl; trivial | constructor]).
    + destruct (Getopt.short_options optstring tok chars rest) as [rs' b'].
      inversion H; subst. constructor; [exact I | eapply IH; reflexivity].
Qed.

Lemma getopt_long_known args : Forall known (fst (getopt_long args)).
Proof.
  unfold getopt_long.
  assert (G : forall n args, List.length args <= n ->
                Forall known (fst (Getopt.scan optstring long_options args))).
  { clear args. induction n as [|n IH]; intros [|tok rest] Hlen;
      simpl in Hlen; try lia; try (simpl; constructor).
    cbn [Getopt.scan].
    assert (IH1 : Forall known (fst (Getopt.scan optstring long_options rest)))
      by (apply IH; lia).
    assert (IH2 : forall a rest', rest = a :: rest' ->
                    Forall known (fst (Getopt.scan optstring long_options rest'))).
    { intros a rest' ->. apply IH. simpl in Hlen. lia. }
    destruct (Getopt.classify tok) as [| |body|chars].
    - destruct (Getopt.scan optstring long_options rest); exact IH1.
    - constructor.
    - destruct (Getopt.long_option long_options body rest) as [r taken] eqn:Lo.
      apply long_option_known in Lo.
      destruct taken, rest as [|a rest'];
        try (destruct (Getopt.scan optstring long_options []); simpl;
             constructor; trivial; fail).
      + specialize (IH2 _ _ eq_refl).
        destruct (Getopt.scan optstring long_options rest'); simpl in *.
        now constructor.
      + destruct (Getopt.scan optstring long_options (a :: rest')); simpl in *.
        now constructor.
    - destruct (Getopt.short_options optstring tok chars rest) as [rs1 taken] eqn:So.
      apply short_options_known in So.
      destruct taken, rest as [|a rest'];
        try (destruct (Getopt.scan optstring long_options []); simpl;
             apply Forall_app; split; trivial; fail).
      + specialize (IH2 _ _ eq_refl).
        destruct (Getopt.scan optstring long_options rest'); simpl in *.
        apply Forall_app; now split.
      + destruct (Getopt.scan optstring long_options (a :: rest')); simpl in *.
        apply Forall_app; now split. }
  now apply (G (List.length args)).
Qed.

End GetoptFacts.

(** ** The loop over the options *)

Import StrFacts.

(** Case analysis of an equation [H : switch r o f = _]: one case for each
    [case] label. *)
Ltac switch_cases H :=
  unfold switch in H;
  repeat match type of H with
         | context [match ?r with Getopt.Opt _ _ => _ | Getopt.Unrecognized _ => _ end] =>
             destruct r
         | context [if Ascii.eqb ?c ?d then _ else _] =>
             let E := fresh "E" in destruct (Ascii.eqb c d) eqn:E
         | context [match language_ ?o with JAVA => _ | CPP => _ end] =>
             let L := fresh "L" in destruct (language_ o) eqn:L
         | context [if String.eqb ?a ?b then _ else _] =>
             let S := fresh "S" in destruct (String.eqb a b) eqn:S
         end.

Lemma error_message_error (text : string) (o : Options) :
  error_message_ (error text o) = error_message_ o ++ text.
Proof. reflexivity. Qed.

Lemma invalid_argument_not_empty (a : option string) (s : string) :
  s ++ invalid_argument a <> "".
Proof. destruct a; apply append_not_empty. Qed.

(** Every [return] in the loop leaves error text behind. *)
Lemma switch_Return_error r o f o' :
  switch r o f = Return o' -> error_message_ o' <> "".
Proof.
  intros H. switch_cases H; try discriminate; inversion H; subst;
    rewrite error_message_error;
    first [apply invalid_argument_not_empty | apply append_not_empty].
Qed.

(** The options write neither the positional members nor the error text
    when the loop goes on. *)
Lemma switch_Break_members r o f o' f' :
  switch r o f = Break o' f' ->
  myname_ o' = myname_ o /\ input_files_ o' = input_files_ o
  /\ output_file_ o' = output_file_ o /\ error_message_ o' = error_message_ o.
Proof.
  intros H. switch_cases H; try discriminate; inversion H; subst;
    try destruct (Task_eqb (task_ o) UNSPECIFIED); simpl; auto.
Qed.

(** Once the language is CPP, [--lang] is refused, whatever its value, and
    no other option changes the language. *)
Lemma switch_lang_CPP v o f :
  language_ o = CPP ->
  switch (Getopt.Opt "l" v) o f
  = Return (error ("aidl-cpp does not support --lang." ++ endl) o).
Proof. intros L. unfold switch. simpl. now rewrite L. Qed.

Lemma switch_Break_CPP r o f o' f' :
  language_ o = CPP -> switch r o f = Break o' f' -> language_ o' = CPP.
Proof.
  intros L H. switch_cases H; try discriminate; try congruence;
    inversion H; subst; try destruct (Task_eqb (task_ o) UNSPECIFIED);
    simpl; auto.
Qed.

(** The legacy format is for a task that is COMPILE without [--lang]: no
    option but [--lang] sets the task to COMPILE. *)
Lemma switch_Break_task r o f o' f' :
  (f = false -> task_ o <> COMPILE) ->
  switch r o f = Break o' f' -> (f' = false -> task_ o' <> COMPILE).
Proof.
  intros I H. switch_cases H; try discriminate; inversion H; subst;
    try discriminate; try exact I;
    intros Hf; specialize (I Hf);
    destruct (task_ o) eqn:T; simpl; try rewrite T; congruence.
Qed.

Lemma option_loop_app rs1 rs2 o f o1 f1 :
  option_loop rs1 o f = Break o1 f1 ->
  option_loop (rs1 ++ rs2)%list o f = option_loop rs2 o1 f1.
Proof.
  revert o f. induction rs1 as [|r rs1 IH]; simpl; intros o f H.
  - now inversion H.
  - destruct (switch r o f); try discriminate. now apply IH.
Qed.

Lemma option_loop_Break_members rs o f o' f' :
  option_loop rs o f = Break o' f' ->
  myname_ o' = myname_ o /\ input_files_ o' = input_files_ o
  /\ output_file_ o' = output_file_ o /\ error_message_ o' = error_message_ o.
Proof.
  revert o f. induction rs as [|r rs IH]; simpl; intros o f H.
  - inversion H; auto.
  - destruct (switch r o f) as [o1 f1| |] eqn:E; try discriminate.
    destruct (switch_Break_members _ _ _ _ _ E) as (A & B & C & D).
    destruct (IH _ _ H) as (A' & B' & C' & D'). repeat split; congruence.
Qed.

Lemma option_loop_Break_CPP rs o f o' f' :
  language_ o = CPP -> option_loop rs o f = Break o' f' -> language_ o' = CPP.
Proof.
  revert o f. induction rs as [|r rs IH]; simpl; intros o f L H.
  - inversion H; now subst.
  - destruct (switch r o f) as [o1 f1| |] eqn:E; try discriminate.
    eapply IH; [|exact H]. eapply switch_Break_CPP; eauto.
Qed.

Lemma option_loop_Break_task rs o f o' f' :
  (f = false -> task_ o <> COMPILE) ->
  option_loop rs o f = Break o' f' -> (f' = false -> task_ o' <> COMPILE).
Proof.
  revert o f. induction rs as [|r rs IH]; simpl; intros o f I H.
  - inversion H; now subst.
  - destruct (switch r o f) as [o1 f1| |] eqn:E; try discriminate.
    eapply IH; [|exact H]. eapply switch_Break_task; eauto.
Qed.

Lemma option_loop_Return_error rs o f o' :
  option_loop rs o f = Return o' -> error_message_ o' <> "".
Proof.
  revert o f. induction rs as [|r rs IH]; simpl; intros o f H; try discriminate.
  destruct (switch r o f) as [o1 f1| |] eqn:E; try discriminate.
  - eapply IH; eauto.
  - inversion H; subst. eapply switch_Return_error; eauto.
Qed.

(** The process ends in the loop only at a [--help]. *)
Lemma switch_Exit r o f status cerr :
  switch r o f = Exit status cerr ->
  (exists a, r = Getopt.Opt "e" a) /\ status = 0%Z /\ cerr = GetUsage o.
Proof.
  intros H. switch_cases H; try discriminate. inversion H; subst.
  match goal with
  | He : Ascii.eqb _ "e" = true |- _ => apply Ascii.eqb_eq in He; subst
  end.
  eauto.
Qed.

Lemma option_loop_Exit rs o f status cerr :
  option_loop rs o f = Exit status cerr ->
  exists a, In (Getopt.Opt "e" a) rs.
Proof.
  revert o f. induction rs as [|r rs IH]; simpl; intros o f H; try discriminate.
  destruct (switch r o f) as [o1 f1| |] eqn:E; try discriminate.
  - destruct (IH _ _ H) as [a Ha]. eauto.
  - apply switch_Exit in E as ([a ->] & _). eauto.
Qed.

(** With the language CPP, the loop does not get past a [--lang]. *)
Lemma option_loop_lang_CPP rs v o f :
  language_ o = CPP -> In (Getopt.Opt "l" v) rs ->
  forall o' f', option_loop rs o f <> Break o' f'.
Proof.
  revert o f. induction rs as [|r rs IH]; simpl; intros o f L Hin o' f' H;
    [contradiction | destruct Hin as [Hr|Hin]].
  - subst r. rewrite switch_lang_CPP in H by trivial. discriminate.
  - destruct (switch r o f) as [o1 f1| |] eqn:E; try discriminate.
    eapply IH; [| exact Hin | exact H]. eapply switch_Break_CPP; eauto.
Qed.

(** [lang_option_found] is set by [--lang] and never cleared. *)
Lemma switch_Break_found r o f o' f' :
  switch r o f = Break o' f' ->
  (f = true -> f' = true) /\ (forall v, r = Getopt.Opt "l" v -> f' = true).
Proof.
  intros H. switch_cases H; try discriminate; inversion H; subst;
    (split; [tauto |]); intros v Hv; inversion Hv; subst;
    first [reflexivity | vm_compute in *; discriminate].
Qed.

Lemma option_loop_Break_found rs o f o' f' :
  option_loop rs o f = Break o' f' ->
  (f = true -> f' = true)
  /\ (forall v, In (Getopt.Opt "l" v) rs -> f' = true).
Proof.
  revert o f. induction rs as [|r rs IH]; simpl; intros o f H.
  - inversion H; subst. split; [tauto | contradiction].
  - destruct (switch r o f) as [o1 f1| |] eqn:E; try discriminate.
    destruct (switch_Break_found _ _ _ _ _ E) as [M1 L1].
    destruct (IH _ _ H) as [M2 L2]. split; [tauto |].
    intros v [Hr|Hin]; [apply M2; eapply L1; eauto | eapply L2; eauto].
Qed.

(** How [getopt_long] reads the spellings of [--lang] and [--help], and an
    element that is not an option. *)
Lemma getopt_long_lang v rest :
  fst (getopt_long (("--lang=" ++ v) :: rest))
  = Getopt.Opt "l" v :: fst (getopt_long rest)
  /\ fst (getopt_long ("--lang" :: v :: rest))
     = Getopt.Opt "l" v :: fst (getopt_long rest).
Proof.
  unfold getopt_long. simpl Getopt.scan.
  now destruct (Getopt.scan optstring long_options rest).
Qed.

Lemma getopt_long_help rest :
  fst (getopt_long ("--help" :: rest))
  = Getopt.Opt "e" "" :: fst (getopt_long rest).
Proof.
  unfold getopt_long. simpl Getopt.scan.
  now destruct (Getopt.scan optstring long_options rest).
Qed.

Lemma getopt_long_nonoption tok rest :
  Getopt.classify tok = Getopt.NonOption ->
  getopt_long (tok :: rest)
  = (fst (getopt_long rest), tok :: snd (getopt_long rest)).
Proof.
  unfold getopt_long. cbn [Getopt.scan]. intros ->.
  now destruct (Getopt.scan optstring long_options rest).
Qed.

(** With the default language CPP, [--lang] as the first argument is
    refused whatever its value and whatever follows. *)
Lemma lang_first_refused_for_default_CPP task0 argv0 v rest :
  Options_Options task0 argv0 (("--lang=" ++ v) :: rest) CPP
  = Constructed
      (error ("aidl-cpp does not support --lang." ++ endl)
         (initial task0 argv0 CPP)).
Proof.
  unfold Options_Options.
  pose proof (proj1 (getopt_long_lang v rest)) as H.
  destruct (getopt_long (("--lang=" ++ v) :: rest)) as [rs tail].
  simpl in H. subst rs. reflexivity.
Qed.

(** With the default language CPP, an argument vector in which
    [getopt_long] finds a [--lang] never gives a valid configuration. *)
Lemma lang_never_valid_for_default_CPP task0 argv0 args v :
  In (Getopt.Opt "l" v) (fst (getopt_long args)) ->
  forall o, ~ valid (Options_Options task0 argv0 args CPP) o.
Proof.
  intros Hin o [Hc He]. unfold Options_Options in Hc.
  destruct (getopt_long args) as [rs tail]; simpl in Hin.
  destruct (option_loop rs (initial task0 argv0 CPP) false) as [o1 f1|o1|] eqn:E;
    try discriminate.
  - eapply option_loop_lang_CPP; [| exact Hin | exact E]. reflexivity.
  - inversion Hc; subst. eapply option_loop_Return_error; eauto.
Qed.

(** When the task does not start at COMPILE, the legacy format is never
    selected: the test in front of it needs a task COMPILE that [--lang]
    did not set. *)
Lemma legacy_format_needs_COMPILE task0 argv0 lang rs o f tail :
  task0 <> COMPILE ->
  option_loop rs (initial task0 argv0 lang) false = Break o f ->
  positional_arguments o f tail = new_arguments o tail.
Proof.
  intros Ht H. unfold positional_arguments.
  destruct f; simpl; trivial.
  assert (T : task_ o <> COMPILE).
  { eapply option_loop_Break_task; [| exact H | reflexivity]. intros _; exact Ht. }
  destruct (task_ o) eqn:E; simpl; congruence.
Qed.

(** ** The positional arguments and the checks *)

(** The inputs that pass the check of the extension are the paths
    [stem.aidl]. *)
Lemma is_aidl_iff input : is_aidl input <-> exists stem, input = stem ++ ".aidl".
Proof.
  split; [apply EndsWith_inv | intros [stem ->]; apply EndsWith_append].
Qed.

Lemma input_files_error text o : input_files_ (error text o) = input_files_ o.
Proof. reflexivity. Qed.

(** The checks pass only when every input file ends with [.aidl]. *)
Lemma filter_invalid_combinations_aidl o :
  error_message_ (filter_invalid_combinations o) = "" ->
  Forall is_aidl (input_files_ (filter_invalid_combinations o)).
Proof.
  unfold filter_invalid_combinations.
  destruct (find _ (input_files_ o)) as [input|] eqn:F.
  - rewrite error_message_error. intros H.
    now apply append_not_empty in H.
  - intros _.
    assert (A : Forall is_aidl (input_files_ o)).
    { apply Forall_forall. intros x Hx.
      apply (find_none _ _ F) in Hx. now apply negb_false_iff in Hx. }
    repeat match goal with
           | |- context [if ?b then _ else _] => destruct b
           end; try rewrite input_files_error; exact A.
Qed.

(** In the new format, a valid configuration has only [.aidl] inputs. *)
Lemma new_arguments_aidl o tail o' :
  new_arguments o tail = Constructed o' -> error_message_ o' = "" ->
  Forall is_aidl (input_files_ o').
Proof.
  unfold new_arguments. intros H He.
  destruct (task_ o); destruct tail as [|a [|b tail]];
    inversion H; subst; clear H;
    try (rewrite error_message_error in He; now apply append_not_empty in He);
    now apply filter_invalid_combinations_aidl.
Qed.

(** The same for the whole construction, whenever the new format is the
    one selected: the task does not start at COMPILE, or there is a
    [--lang] among the options. *)
Lemma new_format_inputs_aidl task0 argv0 args lang o :
  task0 <> COMPILE \/ (exists v, In (Getopt.Opt "l" v) (fst (getopt_long args))) ->
  valid (Options_Options task0 argv0 args lang) o ->
  Forall is_aidl (input_files_ o).
Proof.
  intros Hnew [Hc He]. unfold Options_Options in Hc.
  destruct (getopt_long args) as [rs tail]; simpl in Hnew.
  destruct (option_loop rs (initial task0 argv0 lang) false) as [o1 f1|o1|] eqn:E;
    try discriminate.
  - assert (N : positional_arguments o1 f1 tail = new_arguments o1 tail).
    { destruct Hnew as [Ht|[v Hv]].
      - eapply legacy_format_needs_COMPILE; eauto.
      - apply option_loop_Break_found in E as [_ L].
        rewrite (L v Hv). reflexivity. }
    rewrite N in Hc. eapply new_arguments_aidl; eauto.
  - inversion Hc; subst. now apply option_loop_Return_error in E.
Qed.

(** The usage text is never empty. *)
Lemma GetUsage_not_empty o : GetUsage o <> "".
Proof. unfold GetUsage, line. simpl. discriminate. Qed.

(** [--help] as the first argument: whatever follows is not looked at. *)
Lemma help_first_exits task0 argv0 rest default_lang :
  Options_Options task0 argv0 ("--help" :: rest) default_lang
  = Exited 0 (GetUsage (initial task0 argv0 default_lang)).
Proof.
  unfold Options_Options, getopt_long. simpl.
  now destruct (Getopt.scan optstring long_options rest).
Qed.

(** [--help] is no option when it is the value of the option before it or
    follows [--]. *)
Example help_as_value :
  getopt_long ["-I"; "--help"] = ([Getopt.Opt "I" "--help"], []).
Proof. reflexivity. Qed.

Example help_after_terminator :
  getopt_long ["--"; "--help"] = ([], ["--help"]).
Proof. reflexivity. Qed.

(** White space around the values of options goes; around a positional
    argument it stays. *)
Example white_space_end_to_end :
  exists o,
    valid (Options_Options COMPILE "aidl"
             ["--lang"; " java "; "-I"; " inc "; "-o"; "out "; " A.aidl"] JAVA) o
    /\ language_ o = JAVA
    /\ import_paths_ o = ["inc"]
    /\ output_dir_ o = "out"
    /\ input_files_ o = [" A.aidl"].
Proof.
  eexists. split; [split; [vm_compute; reflexivity | reflexivity] |].
  repeat split; reflexivity.
Qed.

(** What [--preprocess] and [--dumpapi] do to the state. *)
Lemma set_task_same o : set_task (task_ o) o = o.
Proof. now destruct o. Qed.

Lemma switch_guarded_task (c : ascii) (new : Task) o f :
  (c, new) = ("s"%char, PREPROCESS) \/ (c, new) = ("u"%char, DUMPAPI) ->
  switch (Getopt.Opt c "") o f = Break (set_task (guarded_task (task_ o) new) o) f.
Proof.
  intros [H|H]; inversion H; subst; unfold switch, guarded_task; simpl;
    destruct (task_ o) eqn:T; simpl; trivial;
    now rewrite <- T, set_task_same.
Qed.

(** ** The legacy format *)

Lemma positional_arguments_legacy o tail :
  task_ o = COMPILE -> positional_arguments o false tail = legacy_arguments o tail.
Proof. intros T. unfold positional_arguments. now rewrite T. Qed.

Lemma size_aidl : size ".aidl" = 5%Z.
Proof. reflexivity. Qed.

(** ** Values of options and positional arguments *)

(** The checks write nothing but error text. *)
Lemma filter_invalid_combinations_members o :
  input_files_ (filter_invalid_combinations o) = input_files_ o
  /\ output_file_ (filter_invalid_combinations o) = output_file_ o
  /\ output_header_dir_ (filter_invalid_combinations o) = output_header_dir_ o.
Proof.
  unfold filter_invalid_combinations.
  destruct (find _ (input_files_ o)); [now simpl |].
  repeat match goal with
         | |- context [if ?b then _ else _] => destruct b
         end; now simpl.
Qed.

Lemma value_option_stored c short long store v :
  In (c, short, long, store) value_options ->
  (forall o f, switch (Getopt.Opt c v) o f = Break (store (Trim v) o) f)
  /\ (forall rest,
         fst (getopt_long (short :: v :: rest))
         = Getopt.Opt c v :: fst (getopt_long rest)
         /\ fst (getopt_long ((short ++ v) :: rest))
            = (match v with
               | EmptyString => fst (getopt_long (short :: rest))
               | _ => Getopt.Opt c v :: fst (getopt_long rest)
               end)
         /\ fst (getopt_long (long :: v :: rest))
            = Getopt.Opt c v :: fst (getopt_long rest)
         /\ fst (getopt_long ((long ++ "=" ++ v) :: rest))
            = Getopt.Opt c v :: fst (getopt_long rest)).
Proof.
  unfold value_options, getopt_long. simpl In.
  intros H; repeat (destruct H as [H|H]; [inversion H; subst; clear H |]);
    try contradiction;
    (split; [reflexivity |]); intros rest; simpl Getopt.scan;
    destruct (Getopt.scan optstring long_options rest) as [rs tail];
    destruct v; repeat split; reflexivity.
Qed.

Lemma lang_value_compared v rest o f :
  language_ o = JAVA ->
  (Trim v = "java" ->
   option_loop (fst (getopt_long ("--lang" :: v :: rest))) o f
   = option_loop (fst (getopt_long rest)) (set_task COMPILE (set_language JAVA o)) true)
  /\ (Trim v = "cpp" ->
      option_loop (fst (getopt_long ("--lang" :: v :: rest))) o f
      = option_loop (fst (getopt_long rest)) (set_task COMPILE (set_language CPP o)) true).
Proof.
  intros L. unfold getopt_long. simpl Getopt.scan.
  destruct (Getopt.scan optstring long_options rest) as [rs tail].
  cbn [fst option_loop]. unfold switch. simpl Ascii.eqb. cbv iota. rewrite L.
  split; intros T; rewrite T; reflexivity.
Qed.

(** The positional arguments are stored as they are given.  The members
    are those of a state [o] in which no input file was stored yet, as it
    is when the loop over the options has ended. *)
Section Positional.

Variable o : Options.
Hypothesis no_input_yet : input_files_ o = [].

Lemma new_arguments_compile f tail :
  task_ o = COMPILE -> f = true -> tail <> [] ->
  exists o',
    positional_arguments o f tail = Constructed o' /\ input_files_ o' = tail.
Proof.
  intros T F Hne. subst f. unfold positional_arguments, new_arguments.
  rewrite T. simpl. destruct tail as [|a tail]; [congruence |].
  eexists. split; [reflexivity |].
  destruct (filter_invalid_combinations_members
              (set_input_files (input_files_ o ++ a :: tail)%list o)) as (-> & _).
  simpl. now rewrite no_input_yet.
Qed.

Lemma new_arguments_other f output inputs :
  task_ o <> COMPILE -> inputs <> [] ->
  exists o',
    positional_arguments o f (output :: inputs) = Constructed o'
    /\ output_file_ o' = output /\ input_files_ o' = inputs.
Proof.
  intros T Hne. unfold positional_arguments, new_arguments.
  destruct inputs as [|a inputs]; [congruence |].
  destruct (task_ o) eqn:E; try congruence; rewrite andb_false_r;
    (eexists; split; [reflexivity |];
     match goal with
     | |- context [filter_invalid_combinations ?x] =>
         destruct (filter_invalid_combinations_members x) as (-> & -> & _)
     end; simpl; now rewrite no_input_yet).
Qed.

Hypothesis legacy : task_ o = COMPILE.

Lemma legacy_java_arguments input output extra :
  language_ o = JAVA ->
  exists o',
    positional_arguments o false (input :: output :: extra) = Constructed o'
    /\ input_files_ o' = [input] /\ output_file_ o' = output.
Proof.
  intros L. rewrite positional_arguments_legacy by trivial.
  unfold legacy_arguments. rewrite L. eexists. split; [reflexivity |].
  destruct extra; simpl; rewrite no_input_yet; auto.
Qed.

Lemma legacy_cpp_arguments input header_dir output extra :
  language_ o = CPP ->
  exists o',
    positional_arguments o false (input :: header_dir :: output :: extra)
    = Constructed o'
    /\ input_files_ o' = [input] /\ output_header_dir_ o' = header_dir
    /\ output_file_ o' = output.
Proof.
  intros L. rewrite positional_arguments_legacy by trivial.
  unfold legacy_arguments. rewrite L. eexists. split; [reflexivity |].
  destruct extra; simpl; rewrite no_input_yet; auto.
Qed.

End Positional.

(** A loop that stops before the end of the results stops whatever
    follows them. *)
Lemma option_loop_app_Return rs1 rs2 o f o' :
  option_loop rs1 o f = Return o' ->
  option_loop (rs1 ++ rs2)%list o f = Return o'.
Proof.
  revert o f. induction rs1 as [|r rs1 IH]; simpl; intros o f H; [discriminate |].
  destruct (switch r o f); try discriminate; [now apply IH | exact H].
Qed.

Lemma option_loop_app_Exit rs1 rs2 o f status cerr :
  option_loop rs1 o f = Exit status cerr ->
  option_loop (rs1 ++ rs2)%list o f = Exit status cerr.
Proof.
  revert o f. induction rs1 as [|r rs1 IH]; simpl; intros o f H; [discriminate |].
  destruct (switch r o f); try discriminate; [now apply IH | exact H].
Qed.

(** What [--preprocess] and [--dumpapi] leave of a state. *)
Lemma same_but_task_set_task t o : same_but_task o (set_task t o).
Proof. unfold same_but_task. cbn. repeat split. Qed.

Lemma same_but_task_refl o : same_but_task o o.
Proof. unfold same_but_task. repeat split. Qed.

(** * The claims *)

(** C1 (the code departs from it).  The claim: whenever construction gives
    a valid configuration, every entry of [input_files] ends with [.aidl],
    also in the legacy positional format.  The legacy format returns
    before the checks are reached: the vector [aidl Foo.txt Foo.java],
    with the default language JAVA and the task starting at COMPILE, gives
    a valid configuration whose only input file is [Foo.txt]. *)
Theorem legacy_input_extension_unchecked :
  exists o,
    valid (Options_Options COMPILE "aidl" ["Foo.txt"; "Foo.java"] JAVA) o
    /\ input_files_ o = ["Foo.txt"]
    /\ EndsWith "Foo.txt" ".aidl" = false.
Proof.
  eexists. split; [split; [vm_compute; reflexivity | reflexivity] |].
  split; reflexivity.
Qed.

(** C2.  The case of [--preprocess] goes on with a state whose [task_] is
    PREPROCESS when the task was not UNSPECIFIED at that moment, and is
    still UNSPECIFIED when it was; no other member changes, and neither
    does the local flag.  The case of [--dumpapi] does the same with
    DUMPAPI.  [getopt_long] returns these two characters for the two
    flags, which take no value. *)
Theorem preprocess_dumpapi_guard :
  forall (a : string) (rest : list string) (o : Options) (f : bool),
    (exists o',
        switch (Getopt.Opt "s" a) o f = Break o' f
        /\ task_ o' = match task_ o with
                      | UNSPECIFIED => UNSPECIFIED
                      | _ => PREPROCESS
                      end
        /\ same_but_task o o')
    /\ (exists o',
           switch (Getopt.Opt "u" a) o f = Break o' f
           /\ task_ o' = match task_ o with
                         | UNSPECIFIED => UNSPECIFIED
                         | _ => DUMPAPI
                         end
           /\ same_but_task o o')
    /\ getopt_long ("--preprocess" :: rest)
       = (Getopt.Opt "s" "" :: fst (getopt_long rest), snd (getopt_long rest))
    /\ getopt_long ("--dumpapi" :: rest)
       = (Getopt.Opt "u" "" :: fst (getopt_long rest), snd (getopt_long rest)).
Proof.
  intros a rest o f.
  split; [| split; [| split]].
  - unfold switch. simpl Ascii.eqb. cbv iota.
    destruct (task_ o) eqn:T; cbn [Task_eqb]; eexists;
      (split; [reflexivity |]);
      first [ split; [exact T | apply same_but_task_refl]
            | split; [reflexivity | apply same_but_task_set_task] ].
  - unfold switch. simpl Ascii.eqb. cbv iota.
    destruct (task_ o) eqn:T; cbn [Task_eqb]; eexists;
      (split; [reflexivity |]);
      first [ split; [exact T | apply same_but_task_refl]
            | split; [reflexivity | apply same_but_task_set_task] ].
  - unfold getopt_long. simpl Getopt.scan.
    now destruct (Getopt.scan optstring long_options rest).
  - unfold getopt_long. simpl Getopt.scan.
    now destruct (Getopt.scan optstring long_options rest).
Qed.

(** C3.  For the vector [--dumpapi sigs.txt A.aidl B.aidl], with either
    default language and a task that does not start at UNSPECIFIED,
    construction succeeds with the task DUMPAPI, the output file
    [sigs.txt] and the input files [A.aidl], [B.aidl] in that order; the
    vector [--dumpapi sigs.txt] alone fails with the message that gives
    the number of arguments left, 1. *)
Theorem dumpapi_form :
  forall (task0 : Task) (argv0 : string) (default_lang : Language),
    task0 <> UNSPECIFIED ->
    (exists o,
        valid (Options_Options task0 argv0
                 ["--dumpapi"; "sigs.txt"; "A.aidl"; "B.aidl"] default_lang) o
        /\ task_ o = DUMPAPI
        /\ output_file_ o = "sigs.txt"
        /\ input_files_ o = ["A.aidl"; "B.aidl"])
    /\ (exists o,
           Options_Options task0 argv0 ["--dumpapi"; "sigs.txt"] default_lang
           = Constructed o
           /\ error_message_ o
              = "Insufficient arguments. At least 2 required, but got 1." ++ endl).
Proof.
  intros task0 argv0 default_lang Ht.
  destruct task0; try congruence; destruct default_lang;
    (split; eexists;
     [split; [split; [vm_compute; reflexivity | reflexivity] | repeat split]
     | split; [vm_compute; reflexivity | reflexivity]]).
Qed.

Lemma dumpapi_form_witness :
  COMPILE <> UNSPECIFIED
  /\ (exists o,
        valid (Options_Options COMPILE "aidl"
                 ["--dumpapi"; "sigs.txt"; "A.aidl"; "B.aidl"] JAVA) o
        /\ task_ o = DUMPAPI
        /\ output_file_ o = "sigs.txt"
        /\ input_files_ o = ["A.aidl"; "B.aidl"])
  /\ (exists o,
         Options_Options COMPILE "aidl" ["--dumpapi"; "sigs.txt"] JAVA
         = Constructed o
         /\ error_message_ o
            = "Insufficient arguments. At least 2 required, but got 1." ++ endl).
Proof.
  split; [discriminate | apply (dumpapi_form COMPILE "aidl" JAVA); discriminate].
Defined.

(** C4 (the code departs from it).  The claim: with the default language
    JAVA, [--lang] with the values java and cpp, in any order and number,
    never gives the error about overriding the language.  The test is on
    the language as it stands, not on the default: after [--lang=cpp] a
    second [--lang] is refused with the message meant for aidl-cpp. *)
Theorem lang_after_lang_cpp_refused :
  forall (task0 : Task) (argv0 : string),
  exists o,
    Options_Options task0 argv0 ["--lang=cpp"; "--lang=java"] JAVA = Constructed o
    /\ error_message_ o = "aidl-cpp does not support --lang." ++ endl.
Proof.
  intros task0 argv0. eexists. split; [vm_compute; reflexivity | reflexivity].
Qed.

(** C5, as the claim states it, fails: in [aidl-cpp --help --lang=java],
    with the default language CPP, there is a [--lang], and [--help],
    which comes first, ends the process with status 0 and no error. *)
Lemma lang_after_help_not_refused :
  In (Getopt.Opt "l" "java") (fst (getopt_long ["--help"; "--lang=java"]))
  /\ Options_Options COMPILE "aidl-cpp" ["--help"; "--lang=java"] CPP
     = Exited 0 (GetUsage (initial COMPILE "aidl-cpp" CPP))
  /\ (forall o,
         Options_Options COMPILE "aidl-cpp" ["--help"; "--lang=java"] CPP
         <> Constructed o).
Proof.
  split; [right; left; reflexivity |].
  split; [reflexivity |]. intros o. vm_compute. discriminate.
Qed.

(** C5, amended.  With the default language CPP, a [--lang] that
    [getopt_long] finds, its value being [v], whatever it is, with no
    [--help] among the options before it, fails construction: the
    constructor returns with error text that is not empty.  When the
    options before it were all handled without error, that text is
    [aidl-cpp does not support --lang.]. *)
Theorem lang_refused_for_default_CPP :
  forall (task0 : Task) (argv0 : string) (args : list string) (v : string)
         (rs1 rs2 : list Getopt.result),
    fst (getopt_long args) = (rs1 ++ Getopt.Opt "l" v :: rs2)%list ->
    (forall a, ~ In (Getopt.Opt "e" a) rs1) ->
    (exists o',
        Options_Options task0 argv0 args CPP = Constructed o'
        /\ error_message_ o' <> "")
    /\ (forall o f,
           option_loop rs1 (initial task0 argv0 CPP) false = Break o f ->
           exists o',
             Options_Options task0 argv0 args CPP = Constructed o'
             /\ error_message_ o' = "aidl-cpp does not support --lang." ++ endl).
Proof.
  intros task0 argv0 args v rs1 rs2 Hrs Hhelp.
  assert (Reached : forall o f,
             option_loop rs1 (initial task0 argv0 CPP) false = Break o f ->
             Options_Options task0 argv0 args CPP
             = Constructed (error ("aidl-cpp does not support --lang." ++ endl) o)
             /\ error_message_ o = "").
  { intros o f Hloop.
    assert (L : language_ o = CPP).
    { eapply option_loop_Break_CPP; [| exact Hloop]. reflexivity. }
    destruct (option_loop_Break_members _ _ _ _ _ Hloop) as (_ & _ & _ & He).
    split; [| exact He].
    unfold Options_Options. destruct (getopt_long args) as [rs tail].
    simpl in Hrs. subst rs.
    rewrite (option_loop_app _ _ _ _ _ _ Hloop). cbn [option_loop].
    now rewrite switch_lang_CPP. }
  split.
  - destruct (option_loop rs1 (initial task0 argv0 CPP) false)
      as [o1 f1|o1|s c] eqn:E.
    + destruct (Reached _ _ eq_refl) as [R _]. eexists. split; [exact R |].
      rewrite error_message_error. apply append_not_empty.
    + exists o1. split; [| eapply option_loop_Return_error; eauto].
      unfold Options_Options. destruct (getopt_long args) as [rs tail].
      simpl in Hrs. subst rs.
      now rewrite (option_loop_app_Return _ _ _ _ _ E).
    + apply option_loop_Exit in E as [a Ha]. now apply Hhelp in Ha.
  - intros o f Hloop. destruct (Reached _ _ Hloop) as [R He].
    eexists. split; [exact R |]. now rewrite error_message_error, He.
Qed.

Lemma lang_refused_for_default_CPP_witness :
  (exists o',
      Options_Options COMPILE "aidl-cpp"
        ["-I"; "dir"; "--lang= anything "; "--help"] CPP = Constructed o'
      /\ error_message_ o' <> "")
  /\ (exists o',
         Options_Options COMPILE "aidl-cpp"
           ["-I"; "dir"; "--lang= anything "; "--help"] CPP = Constructed o'
         /\ error_message_ o' = "aidl-cpp does not support --lang." ++ endl).
Proof.
  assert (Hhelp : forall a, ~ In (Getopt.Opt "e" a) [Getopt.Opt "I" "dir"])
    by (intros a [H | []]; discriminate H).
  destruct (lang_refused_for_default_CPP COMPILE "aidl-cpp"
              ["-I"; "dir"; "--lang= anything "; "--help"] " anything "
              [Getopt.Opt "I" "dir"] [Getopt.Opt "e" ""] eq_refl Hhelp)
    as [A B].
  split; [exact A |].
  apply (B (add_import_path "dir" (initial COMPILE "aidl-cpp" CPP)) false).
  reflexivity.
Defined.

(** C6.  In the legacy format (task COMPILE, no [--lang]) with the language
    JAVA, the first positional argument is the one input file; a second
    one is the output file (what follows it is reported as too many
    arguments); without a second one, the output file of an input
    [stem.aidl] is [stem.java].  So [aidl Foo.aidl] gives the output file
    [Foo.java]. *)
Theorem legacy_java_form :
  forall (o : Options) (input : string),
    task_ o = COMPILE -> language_ o = JAVA -> input_files_ o = [] ->
    (forall output extra,
        exists o',
          positional_arguments o false (input :: output :: extra) = Constructed o'
          /\ input_files_ o' = [input]
          /\ output_file_ o' = output
          /\ error_message_ o'
             = error_message_ (too_many_arguments extra o))
    /\ (forall stem,
           input = stem ++ ".aidl" -> representable input ->
           exists o',
             positional_arguments o false [input] = Constructed o'
             /\ input_files_ o' = [input]
             /\ output_file_ o' = stem ++ ".java"
             /\ error_message_ o' = error_message_ o)
    /\ (forall argv0,
           exists o',
             valid (Options_Options COMPILE argv0 ["Foo.aidl"] JAVA) o'
             /\ input_files_ o' = ["Foo.aidl"]
             /\ output_file_ o' = "Foo.java").
Proof.
  intros o input T L I. split; [| split].
  - intros output extra. rewrite positional_arguments_legacy by trivial.
    unfold legacy_arguments. rewrite L. eexists. split; [reflexivity |].
    destruct extra; simpl; rewrite I; auto.
  - intros stem Hin Hr. rewrite positional_arguments_legacy by trivial.
    unfold legacy_arguments. rewrite L.
    cbn [add_input_file set_input_files input_files_]. rewrite I.
    cbn [app hd]. subst input. rewrite replace_suffix by trivial.
    eexists. split; [reflexivity |]. simpl. rewrite I. auto.
  - intros argv0. eexists.
    split; [split; [vm_compute; reflexivity | reflexivity] |].
    split; reflexivity.
Qed.

Lemma legacy_java_form_witness :
  exists o',
    positional_arguments (initial COMPILE "aidl" JAVA) false ["dir/IFoo.aidl"]
    = Constructed o'
    /\ input_files_ o' = ["dir/IFoo.aidl"]
    /\ output_file_ o' = "dir/IFoo" ++ ".java"
    /\ error_message_ o' = error_message_ (initial COMPILE "aidl" JAVA).
Proof.
  apply (legacy_java_form (initial COMPILE "aidl" JAVA) "dir/IFoo.aidl"
           eq_refl eq_refl eq_refl);
    reflexivity.
Defined.

(** C7.  In the legacy format with the language CPP, the positional
    arguments [input header_dir output] give that input file, header
    directory and output file; with fewer than two arguments after the
    input file, construction fails with [No HEADER_DIR or OUTPUT.].  So
    [aidl-cpp Foo.aidl HeaderDir OutDir] resolves as the claim says. *)
Theorem legacy_cpp_form :
  forall (o : Options) (input : string),
    task_ o = COMPILE -> language_ o = CPP -> input_files_ o = [] ->
    (forall header_dir output,
        exists o',
          positional_arguments o false [input; header_dir; output] = Constructed o'
          /\ input_files_ o' = [input]
          /\ output_header_dir_ o' = header_dir
          /\ output_file_ o' = output
          /\ error_message_ o' = error_message_ o)
    /\ (forall tail1,
           List.length tail1 < 2 ->
           exists o',
             positional_arguments o false (input :: tail1) = Constructed o'
             /\ error_message_ o'
                = error_message_ o ++ "No HEADER_DIR or OUTPUT." ++ endl)
    /\ (forall argv0,
           exists o',
             valid (Options_Options COMPILE argv0
                      ["Foo.aidl"; "HeaderDir"; "OutDir"] CPP) o'
             /\ input_files_ o' = ["Foo.aidl"]
             /\ output_header_dir_ o' = "HeaderDir"
             /\ output_file_ o' = "OutDir").
Proof.
  intros o input T L I. split; [| split].
  - intros header_dir output. rewrite positional_arguments_legacy by trivial.
    unfold legacy_arguments. rewrite L. eexists. split; [reflexivity |].
    simpl. rewrite I. auto.
  - intros tail1 Hlen. rewrite positional_arguments_legacy by trivial.
    unfold legacy_arguments. rewrite L.
    destruct tail1 as [|a [|b tail2]]; simpl in Hlen; try lia;
      eexists; split; reflexivity.
  - intros argv0. eexists.
    split; [split; [vm_compute; reflexivity | reflexivity] |].
    repeat split; reflexivity.
Qed.

Lemma legacy_cpp_form_witness :
  exists o',
    positional_arguments (initial COMPILE "aidl-cpp" CPP) false
      ["Foo.aidl"; "HeaderDir"] = Constructed o'
    /\ error_message_ o'
       = error_message_ (initial COMPILE "aidl-cpp" CPP)
         ++ "No HEADER_DIR or OUTPUT." ++ endl.
Proof.
  apply (legacy_cpp_form (initial COMPILE "aidl-cpp" CPP) "Foo.aidl"
           eq_refl eq_refl eq_refl).
  simpl. lia.
Defined.

(** C8, as the claim states it, fails: in [aidl --lang=x --help], with the
    default language JAVA, the value of [--lang] is refused and the
    constructor returns with that error before [--help] is looked at. *)
Lemma help_after_refused_flag_not_reached :
  In "--help" ["--lang=x"; "--help"]
  /\ (exists o,
         Options_Options COMPILE "aidl" ["--lang=x"; "--help"] JAVA = Constructed o
         /\ error_message_ o = "Unsupported language: 'x'" ++ endl)
  /\ (forall status cerr,
         Options_Options COMPILE "aidl" ["--lang=x"; "--help"] JAVA
         <> Exited status cerr).
Proof.
  split; [right; left; reflexivity |].
  split; [eexists; split; [vm_compute; reflexivity | reflexivity] |].
  intros status cerr. vm_compute. discriminate.
Qed.

(** C8, amended.  Take an argument vector in which [getopt_long] finds a
    [--help] (the token is not the value of the option before it and does
    not follow [--]).  When every option before it is handled without a
    [return], construction writes the usage text, which is not empty, and
    ends the process with status 0, whatever follows in the vector.  When
    an option before it records an error, the constructor returns with
    that error, which is not empty, and [--help] is not looked at.  (An
    earlier [--help] ends the process in the same way.) *)
Theorem help_reached_exits :
  forall (task0 : Task) (argv0 : string) (args : list string)
         (default_lang : Language) (a : string)
         (rs1 rs2 : list Getopt.result),
    fst (getopt_long args) = (rs1 ++ Getopt.Opt "e" a :: rs2)%list ->
    (forall o f,
        option_loop rs1 (initial task0 argv0 default_lang) false = Break o f ->
        Options_Options task0 argv0 args default_lang = Exited 0 (GetUsage o)
        /\ GetUsage o <> "")
    /\ (forall o,
           option_loop rs1 (initial task0 argv0 default_lang) false = Return o ->
           Options_Options task0 argv0 args default_lang = Constructed o
           /\ error_message_ o <> "")
    /\ (forall status cerr,
           option_loop rs1 (initial task0 argv0 default_lang) false
           = Exit status cerr ->
           Options_Options task0 argv0 args default_lang = Exited status cerr
           /\ status = 0%Z /\ cerr <> "").
Proof.
  intros task0 argv0 args default_lang a rs1 rs2 Hrs.
  unfold Options_Options. destruct (getopt_long args) as [rs tail].
  simpl in Hrs. subst rs. split; [| split].
  - intros o f Hloop. split; [| apply GetUsage_not_empty].
    now rewrite (option_loop_app _ _ _ _ _ _ Hloop).
  - intros o Hloop. split; [| eapply option_loop_Return_error; eauto].
    now rewrite (option_loop_app_Return _ _ _ _ _ Hloop).
  - intros status cerr Hloop.
    rewrite (option_loop_app_Exit _ _ _ _ _ _ Hloop). split; [reflexivity |].
    revert Hloop. generalize (initial task0 argv0 default_lang), false.
    induction rs1 as [|r rs1 IH]; simpl; intros o f H; [discriminate |].
    destruct (switch r o f) as [o1 f1|o1|s c] eqn:E; try discriminate.
    + eapply IH; eauto.
    + inversion H; subst. apply switch_Exit in E as (_ & -> & ->).
      split; [reflexivity | apply GetUsage_not_empty].
Qed.

Lemma help_reached_exits_witness :
  (Options_Options COMPILE "aidl"
     ["in.aidl"; "-o"; "out"; "--lang=cpp"; "--help"; "--bogus"] JAVA
   = Exited 0
       (GetUsage
          (set_task COMPILE
             (set_language CPP
                (set_output_dir "out" (initial COMPILE "aidl" JAVA)))))
   /\ GetUsage
        (set_task COMPILE
           (set_language CPP (set_output_dir "out" (initial COMPILE "aidl" JAVA))))
      <> "")
  /\ (Options_Options COMPILE "aidl" ["-b"; "--lang=x"; "--help"] JAVA
      = Constructed
          (error ("Unsupported language: 'x'" ++ endl)
             (set_fail_on_parcelable true (initial COMPILE "aidl" JAVA)))
      /\ error_message_
           (error ("Unsupported language: 'x'" ++ endl)
              (set_fail_on_parcelable true (initial COMPILE "aidl" JAVA)))
         <> "").
Proof.
  split.
  - apply (proj1 (help_reached_exits COMPILE "aidl"
                    ["in.aidl"; "-o"; "out"; "--lang=cpp"; "--help"; "--bogus"]
                    JAVA ""
                    [Getopt.Opt "o" "out"; Getopt.Opt "l" "cpp"]
                    [Getopt.Unrecognized None] eq_refl)
             _ true).
    reflexivity.
  - apply (proj1 (proj2 (help_reached_exits COMPILE "aidl"
                           ["-b"; "--lang=x"; "--help"] JAVA ""
                           [Getopt.Opt "b" ""; Getopt.Opt "l" "x"] []
                           eq_refl))).
    reflexivity.
Defined.

(** C9.  In the legacy Java format without an output argument, the last
    five characters of the input path are replaced by [.java] whatever
    they are, with no check that they are [.aidl], provided there are
    five: the output file is the path without its last five characters,
    followed by [.java].  For every shorter input the position,
    [length - 5] in [size_t], wraps around to a value greater than the
    length and [replace] throws.  The constructor returns exactly for the
    inputs of length at least 5. *)
Theorem legacy_java_output_needs_five :
  forall (o : Options) (input : string),
    language_ o = JAVA -> input_files_ o = [] -> representable input ->
    (5 <= String.length input ->
     exists o',
       legacy_arguments o [input] = Constructed o'
       /\ input_files_ o' = [input]
       /\ output_file_ o' = take (String.length input - 5) input ++ ".java"
       /\ error_message_ o' = error_message_ o)
    /\ (String.length input < 5 ->
        (size input < size_t_sub (size input) (size ".aidl"))%Z
        /\ legacy_arguments o [input] = OutOfRange)
    /\ (legacy_arguments o [input] <> OutOfRange <-> 5 <= String.length input).
Proof.
  intros o input L I Hr.
  assert (Hge : 5 <= String.length input ->
                exists o',
                  legacy_arguments o [input] = Constructed o'
                  /\ input_files_ o' = [input]
                  /\ output_file_ o'
                     = take (String.length input - 5) input ++ ".java"
                  /\ error_message_ o' = error_message_ o).
  { intros H5. unfold legacy_arguments. rewrite L.
    cbn [add_input_file set_input_files input_files_]. rewrite I.
    cbn [app hd]. rewrite size_aidl.
    change 5%Z with (Z.of_nat 5). rewrite replace_last by trivial.
    eexists. split; [reflexivity |].
    cbn [input_files_ output_file_ error_message_ set_output_file
           add_input_file set_input_files].
    rewrite I. repeat split. }
  assert (Hlt : String.length input < 5 ->
                (size input < size_t_sub (size input) (size ".aidl"))%Z
                /\ legacy_arguments o [input] = OutOfRange).
  { intros H5.
    assert (Hk : (size input < 5 < size_t_modulus)%Z).
    { unfold size. split; [lia | reflexivity]. }
    rewrite size_aidl. split; [now apply size_t_sub_wraps |].
    unfold legacy_arguments. rewrite L.
    cbn [add_input_file set_input_files input_files_]. rewrite I.
    cbn [app hd]. rewrite size_aidl. now rewrite replace_throws. }
  split; [exact Hge |]. split; [exact Hlt |].
  split.
  - intros Hne. destruct (le_lt_dec 5 (String.length input)) as [H|H]; trivial.
    now destruct (Hlt H).
  - intros H5 Heq. destruct (Hge H5) as (o' & E & _). congruence.
Qed.

Lemma legacy_java_output_needs_five_witness :
  (exists o',
      legacy_arguments (initial COMPILE "aidl" JAVA) ["IFoo.txt"] = Constructed o'
      /\ input_files_ o' = ["IFoo.txt"]
      /\ output_file_ o' = take (String.length "IFoo.txt" - 5) "IFoo.txt" ++ ".java"
      /\ error_message_ o' = error_message_ (initial COMPILE "aidl" JAVA))
  /\ take (String.length "IFoo.txt" - 5) "IFoo.txt" ++ ".java" = "IFo.java"
  /\ ((size "Foo" < size_t_sub (size "Foo") (size ".aidl"))%Z
      /\ legacy_arguments (initial COMPILE "aidl" JAVA) ["Foo"] = OutOfRange).
Proof.
  split; [| split; [reflexivity |]].
  - apply (legacy_java_output_needs_five (initial COMPILE "aidl" JAVA) "IFoo.txt"
             eq_refl eq_refl eq_refl).
    simpl. lia.
  - apply (legacy_java_output_needs_five (initial COMPILE "aidl" JAVA) "Foo"
             eq_refl eq_refl eq_refl).
    simpl. lia.
Defined.

(** C10.  Only the values of options are trimmed.  [Trim v] is [v] without
    the white space around it.  [getopt_long] hands the value of [-I],
    [-p], [-d], [-o], [-h], in any spelling, to the [switch] as it is
    given; after the [switch], the import paths and the preprocessed files
    end with [Trim] of it, and the dependency file, the output directory
    and the header directory are [Trim] of it.  [--lang] compares [Trim]
    of its value with [java] and [cpp] and sets the language and the task
    by it.  The positional arguments are stored as they are given, in the
    new format (the input files, and the output file of the tasks other
    than COMPILE) and in the legacy format (the input file, the output
    file, the header directory). *)
Theorem values_trimmed_positionals_verbatim :
  forall (v : string),
    (exists l r,
        v = l ++ Trim v ++ r
        /\ all_space l = true /\ all_space r = true
        /\ starts_with_space (Trim v) = false
        /\ ends_with_space (Trim v) = false)
    /\ (forall c short long store,
           In (c, short, long, store) value_options ->
           (forall o f, switch (Getopt.Opt c v) o f = Break (store (Trim v) o) f)
           /\ (forall rest,
                  fst (getopt_long (short :: v :: rest))
                  = Getopt.Opt c v :: fst (getopt_long rest)
                  /\ fst (getopt_long ((short ++ v) :: rest))
                     = (match v with
                        | EmptyString => fst (getopt_long (short :: rest))
                        | _ => Getopt.Opt c v :: fst (getopt_long rest)
                        end)
                  /\ fst (getopt_long (long :: v :: rest))
                     = Getopt.Opt c v :: fst (getopt_long rest)
                  /\ fst (getopt_long ((long ++ "=" ++ v) :: rest))
                     = Getopt.Opt c v :: fst (getopt_long rest)))
    /\ (forall o f,
           (exists o',
               switch (Getopt.Opt "I" v) o f = Break o' f
               /\ import_paths_ o' = (import_paths_ o ++ [Trim v])%list)
           /\ (exists o',
                  switch (Getopt.Opt "p" v) o f = Break o' f
                  /\ preprocessed_files_ o'
                     = (preprocessed_files_ o ++ [Trim v])%list)
           /\ (exists o',
                  switch (Getopt.Opt "d" v) o f = Break o' f
                  /\ dependency_file_ o' = Trim v)
           /\ (exists o',
                  switch (Getopt.Opt "o" v) o f = Break o' f
                  /\ output_dir_ o' = Trim v)
           /\ (exists o',
                  switch (Getopt.Opt "h" v) o f = Break o' f
                  /\ output_header_dir_ o' = Trim v))
    /\ (forall rest,
           fst (getopt_long ("--lang" :: v :: rest))
           = Getopt.Opt "l" v :: fst (getopt_long rest)
           /\ fst (getopt_long (("--lang=" ++ v) :: rest))
              = Getopt.Opt "l" v :: fst (getopt_long rest))
    /\ (forall o f,
           language_ o = JAVA ->
           (Trim v = "java" ->
            exists o',
              switch (Getopt.Opt "l" v) o f = Break o' true
              /\ language_ o' = JAVA /\ task_ o' = COMPILE)
           /\ (Trim v = "cpp" ->
               exists o',
                 switch (Getopt.Opt "l" v) o f = Break o' true
                 /\ language_ o' = CPP /\ task_ o' = COMPILE))
    /\ (forall o f tail,
           input_files_ o = [] -> task_ o = COMPILE -> f = true -> tail <> [] ->
           exists o',
             positional_arguments o f tail = Constructed o'
             /\ input_files_ o' = tail)
    /\ (forall o f output inputs,
           input_files_ o = [] -> task_ o <> COMPILE -> inputs <> [] ->
           exists o',
             positional_arguments o f (output :: inputs) = Constructed o'
             /\ output_file_ o' = output /\ input_files_ o' = inputs)
    /\ (forall o input output extra,
           input_files_ o = [] -> task_ o = COMPILE -> language_ o = JAVA ->
           exists o',
             positional_arguments o false (input :: output :: extra)
             = Constructed o'
             /\ input_files_ o' = [input] /\ output_file_ o' = output)
    /\ (forall o input header_dir output extra,
           input_files_ o = [] -> task_ o = COMPILE -> language_ o = CPP ->
           exists o',
             positional_arguments o false
               (input :: header_dir :: output :: extra) = Constructed o'
             /\ input_files_ o' = [input]
             /\ output_header_dir_ o' = header_dir
             /\ output_file_ o' = output).
Proof.
  intros v.
  split; [apply Trim_spec |].
  split; [intros; now apply value_option_stored |].
  split; [intros o f; repeat split; eexists; split; reflexivity |].
  split; [intros rest; split; apply getopt_long_lang |].
  split.
  { intros o f L. unfold switch. simpl Ascii.eqb. cbv iota. rewrite L.
    split; intros T; rewrite T; eexists; split;
      try reflexivity; split; reflexivity. }
  split; [intros; now apply new_arguments_compile |].
  split; [intros; now apply new_arguments_other |].
  split; [intros; now apply legacy_java_arguments |].
  intros; now apply legacy_cpp_arguments.
Qed.

Lemma values_trimmed_positionals_verbatim_witness :
  (exists o',
      switch (Getopt.Opt "o" " gen ") (initial COMPILE "aidl" JAVA) false
      = Break o' false
      /\ output_dir_ o' = Trim " gen ")
  /\ Trim " gen " = "gen"
  /\ (exists o',
         switch (Getopt.Opt "l" " java ") (initial UNSPECIFIED "aidl" JAVA) false
         = Break o' true
         /\ language_ o' = JAVA /\ task_ o' = COMPILE)
  /\ exists o',
      positional_arguments
        (set_output_dir (Trim " gen ") (initial COMPILE "aidl" JAVA)) false
        [" A.aidl"; " A.java "]
      = Constructed o'
      /\ input_files_ o' = [" A.aidl"] /\ output_file_ o' = " A.java ".
Proof.
  destruct (values_trimmed_positionals_verbatim " gen ")
    as (_ & _ & Hstore & _ & _ & _ & _ & Hjava & _).
  destruct (values_trimmed_positionals_verbatim " java ")
    as (_ & _ & _ & _ & Hlang & _).
  split; [| split; [reflexivity | split]].
  - now destruct (Hstore (initial COMPILE "aidl" JAVA) false)
      as (_ & _ & _ & O & _).
  - apply (Hlang (initial UNSPECIFIED "aidl" JAVA) false); reflexivity.
  - apply Hjava; reflexivity.
Defined.

(** * Further properties of the constructor *)

(** ** The checks *)

Lemma empty_spec (s : string) : reflect (s = "") (empty s).
Proof. unfold empty. apply String.eqb_spec. Qed.

Lemma error_changes (text : string) (o : Options) : text <> "" -> error text o <> o.
Proof.
  intros Ht H. apply (f_equal error_message_) in H.
  rewrite error_message_error in H.
  apply (f_equal String.length) in H. rewrite length_append in H.
  destruct text; [congruence | simpl in H; lia].
Qed.

(** The checks either leave the state as it is, and then it is an
    accepted one, or write one message, and then it is not. *)
Lemma filter_invalid_combinations_spec o :
  (accepted o /\ filter_invalid_combinations o = o)
  \/ (~ accepted o
      /\ exists text, text <> "" /\ filter_invalid_combinations o = error text o).
Proof.
  unfold filter_invalid_combinations, accepted.
  destruct (find _ (input_files_ o)) as [input|] eqn:F.
  - right. split.
    + intros (A & _). apply find_some in F as [Hin Hn].
      rewrite Forall_forall in A. apply A in Hin. unfold is_aidl in Hin.
      rewrite Hin in Hn. discriminate.
    + eexists. split; [| reflexivity]. simpl; discriminate.
  - assert (A : Forall is_aidl (input_files_ o)).
    { apply Forall_forall. intros x Hx.
      apply (find_none _ _ F) in Hx. now apply negb_false_iff in Hx. }
    destruct (task_ o) eqn:T; destruct (language_ o) eqn:L; simpl;
      try (left; repeat split; trivial; intros; discriminate);
      destruct (empty_spec (output_dir_ o)) as [D|D];
      destruct (empty_spec (output_header_dir_ o)) as [H|H];
      destruct (empty_spec (output_file_ o)) as [O|O];
      destruct (empty_spec (dependency_file_ o)) as [P|P];
      destruct (Nat.ltb_spec 1 (List.length (input_files_ o))) as [M|M];
      simpl;
      first
        [ left; split; [| reflexivity];
          repeat split; trivial; intros; first [congruence | lia]
        | right; split;
          [ intros (_ & C1 & C2 & C3 & C4);
            first
              [ destruct (C1 eq_refl eq_refl); congruence
              | destruct (C2 eq_refl eq_refl); congruence
              | specialize (C3 eq_refl O); lia
              | specialize (C4 eq_refl P); lia ]
          | eexists; split; [| reflexivity]; simpl; discriminate ] ].
Qed.

Lemma find_first {A} (p : A -> bool) (good : list A) (bad : A) (rest : list A) :
  Forall (fun x => p x = false) good -> p bad = true ->
  find p (good ++ bad :: rest)%list = Some bad.
Proof.
  intros G B. induction G as [|x good Hx _ IH]; simpl.
  - now rewrite B.
  - now rewrite Hx.
Qed.


(** ** What the loop has done when it ends *)

Ltac concrete_char :=
  repeat match goal with
         | H : Ascii.eqb _ _ = true |- _ => apply Ascii.eqb_eq in H; subst
         | H : Ascii.eqb _ _ = false |- _ => clear H
         end.

Lemma values_cons c r rs : values c (r :: rs) = (values c [r] ++ values c rs)%list.
Proof. destruct r as [d a|x]; simpl; trivial. now destruct (Ascii.eqb d c). Qed.

Lemma seen_cons c r rs : seen c (r :: rs) = seen c [r] || seen c rs.
Proof. unfold seen. simpl. now rewrite orb_false_r. Qed.

Lemma last_app {A} (l1 l2 : list A) (d : A) :
  last (l1 ++ l2)%list d = last l2 (last l1 d).
Proof.
  revert d. induction l1 as [|x l1 IH]; intros d; [reflexivity |].
  destruct l1 as [|y l1].
  - simpl. destruct l2; [reflexivity |]. clear IH.
    revert a. induction l2 as [|z l2 IH2]; intros a; [reflexivity |].
    simpl in *. apply IH2.
  - change (last ((y :: l1) ++ l2)%list d = last l2 (last (y :: l1) d)).
    apply IH.
Qed.

(** One turn of the loop that goes on: the members that the options
    write. *)
Lemma switch_Break_effect r o f o' f' :
  switch r o f = Break o' f' ->
  import_paths_ o' = (import_paths_ o ++ map Trim (values "I" [r]))%list
  /\ preprocessed_files_ o'
     = (preprocessed_files_ o ++ map Trim (values "p" [r]))%list
  /\ dependency_file_ o' = last (map Trim (values "d" [r])) (dependency_file_ o)
  /\ output_dir_ o' = last (map Trim (values "o" [r])) (output_dir_ o)
  /\ output_header_dir_ o'
     = last (map Trim (values "h" [r])) (output_header_dir_ o)
  /\ dependency_file_ninja_ o' = dependency_file_ninja_ o || seen "n" [r]
  /\ gen_traces_ o' = gen_traces_ o || seen "t" [r]
  /\ auto_dep_file_ o' = auto_dep_file_ o || seen "a" [r]
  /\ fail_on_parcelable_ o' = fail_on_parcelable_ o || seen "b" [r]
  /\ gen_transaction_names_ o' = gen_transaction_names_ o || seen "c" [r].
Proof.
  intros H. switch_cases H; try discriminate; inversion H; subst; clear H;
    concrete_char; try destruct (Task_eqb (task_ o) UNSPECIFIED);
    cbn; rewrite ?app_nil_r, ?orb_false_r, ?orb_true_r; repeat split.
Qed.

(** One turn of the loop that goes on: the task, the language and the
    local flag. *)
Lemma switch_Break_control r o f o' f' :
  switch r o f = Break o' f' ->
  f' = f || seen "l" [r]
  /\ (task_ o <> UNSPECIFIED -> task_ o' <> UNSPECIFIED)
  /\ (seen "l" [r] = false ->
      language_ o' = language_ o
      /\ (task_ o = UNSPECIFIED -> task_ o' = UNSPECIFIED)).
Proof.
  intros H. switch_cases H; try discriminate; inversion H; subst; clear H;
    concrete_char; cbn; rewrite ?orb_false_r, ?orb_true_r;
    (split; [reflexivity |]);
    (split; [| intros N; try discriminate N]);
    try destruct (task_ o) eqn:T; cbn; try rewrite T; auto; try congruence;
    (split; [reflexivity | discriminate]).
Qed.

(** Every [return] in the loop writes one message and nothing else. *)
Lemma switch_Return_message r o f o' :
  switch r o f = Return o' -> exists text, text <> "" /\ o' = error text o.
Proof.
  intros H. switch_cases H; try discriminate; inversion H; subst;
    eexists; (split; [| reflexivity]);
    try (destruct at_optind); simpl; discriminate.
Qed.

Lemma option_loop_Break_effect rs o f o' f' :
  option_loop rs o f = Break o' f' ->
  import_paths_ o' = (import_paths_ o ++ map Trim (values "I" rs))%list
  /\ preprocessed_files_ o'
     = (preprocessed_files_ o ++ map Trim (values "p" rs))%list
  /\ dependency_file_ o' = last (map Trim (values "d" rs)) (dependency_file_ o)
  /\ output_dir_ o' = last (map Trim (values "o" rs)) (output_dir_ o)
  /\ output_header_dir_ o'
     = last (map Trim (values "h" rs)) (output_header_dir_ o)
  /\ dependency_file_ninja_ o' = dependency_file_ninja_ o || seen "n" rs
  /\ gen_traces_ o' = gen_traces_ o || seen "t" rs
  /\ auto_dep_file_ o' = auto_dep_file_ o || seen "a" rs
  /\ fail_on_parcelable_ o' = fail_on_parcelable_ o || seen "b" rs
  /\ gen_transaction_names_ o' = gen_transaction_names_ o || seen "c" rs.
Proof.
  revert o f. induction rs as [|r rs IH]; intros o f H.
  - inversion H; subst. cbn. rewrite !app_nil_r, !orb_false_r. repeat split.
  - cbn [option_loop] in H.
    destruct (switch r o f) as [o1 f1| |] eqn:E; try discriminate.
    apply switch_Break_effect in E
      as (E1 & E2 & E3 & E4 & E5 & E6 & E7 & E8 & E9 & E10).
    apply IH in H as (H1 & H2 & H3 & H4 & H5 & H6 & H7 & H8 & H9 & H10).
    rewrite H1, H2, H3, H4, H5, H6, H7, H8, H9, H10.
    rewrite E1, E2, E3, E4, E5, E6, E7, E8, E9, E10.
    rewrite !(values_cons _ r rs), !(seen_cons _ r rs).
    rewrite !map_app, !last_app, <- !app_assoc, !orb_assoc.
    repeat split.
Qed.

Lemma option_loop_Break_control rs o f o' f' :
  option_loop rs o f = Break o' f' ->
  f' = f || seen "l" rs
  /\ (task_ o <> UNSPECIFIED -> task_ o' <> UNSPECIFIED)
  /\ (seen "l" rs = false ->
      language_ o' = language_ o
      /\ (task_ o = UNSPECIFIED -> task_ o' = UNSPECIFIED)).
Proof.
  revert o f. induction rs as [|r rs IH]; intros o f H.
  - inversion H; subst. cbn. rewrite orb_false_r. auto.
  - cbn [option_loop] in H.
    destruct (switch r o f) as [o1 f1| |] eqn:E; try discriminate.
    apply switch_Break_control in E as (E1 & E2 & E3).
    apply IH in H as (H1 & H2 & H3).
    rewrite seen_cons. split; [now rewrite H1, E1, orb_assoc |].
    split; [auto |].
    intros N. apply orb_false_elim in N as [N1 N2].
    destruct (E3 N1) as [L1 T1]. destruct (H3 N2) as [L2 T2].
    split; [congruence | auto].
Qed.

(** The three ways in which the loop ends.  A [return] and the [exit] come
    from one option, after a run of turns that went on. *)
Lemma option_loop_Return_inv rs o f o' :
  option_loop rs o f = Return o' ->
  exists rs1 r rs2 o1 f1 text,
    rs = (rs1 ++ r :: rs2)%list
    /\ option_loop rs1 o f = Break o1 f1
    /\ text <> "" /\ o' = error text o1.
Proof.
  revert o f. induction rs as [|r rs IH]; intros o f H; [discriminate |].
  cbn [option_loop] in H.
  destruct (switch r o f) as [o1 f1|o1|] eqn:E; try discriminate.
  - destruct (IH _ _ H) as (rs1 & r' & rs2 & o2 & f2 & text & -> & L & T & ->).
    exists (r :: rs1), r', rs2, o2, f2, text. repeat split; trivial.
    cbn [option_loop]. now rewrite E.
  - inversion H; subst.
    destruct (switch_Return_message _ _ _ _ E) as (text & T & ->).
    exists [], r, rs, o, f, text. repeat split; trivial.
Qed.

Lemma option_loop_Exit_inv rs o f status cerr :
  option_loop rs o f = Exit status cerr ->
  exists rs1 a rs2 o1 f1,
    rs = (rs1 ++ Getopt.Opt "e" a :: rs2)%list
    /\ option_loop rs1 o f = Break o1 f1
    /\ status = 0%Z /\ cerr = GetUsage o1.
Proof.
  revert o f. induction rs as [|r rs IH]; intros o f H; [discriminate |].
  cbn [option_loop] in H.
  destruct (switch r o f) as [o1 f1|o1|] eqn:E; try discriminate.
  - destruct (IH _ _ H) as (rs1 & a & rs2 & o2 & f2 & -> & L & S & C).
    exists (r :: rs1), a, rs2, o2, f2. repeat split; trivial.
    cbn [option_loop]. now rewrite E.
  - inversion H; subst.
    apply switch_Exit in E as ([a ->] & S & C).
    exists [], a, rs, o, f. repeat split; trivial.
Qed.

(** ** What the positional stage does *)

Lemma error_message_not_empty text o :
  text <> "" -> error_message_ (error text o) <> "".
Proof.
  intros T H. rewrite error_message_error in H.
  destruct text; [congruence |]. now apply append_not_empty in H.
Qed.

Lemma too_many_arguments_cases extra o :
  (extra = [] /\ too_many_arguments extra o = o)
  \/ (extra <> []
      /\ exists text, text <> "" /\ too_many_arguments extra o = error text o).
Proof.
  destruct extra as [|a extra]; [left; auto | right].
  split; [discriminate |]. eexists. split; [| reflexivity]. simpl; discriminate.
Qed.

(** [replace] at the position of the legacy Java format returns only for
    a path of five characters or more. *)
Lemma replace_returns_five (s new x : string) :
  replace s (size_t_sub (size s) (size ".aidl")) (size ".aidl") new = Some x ->
  5 <= String.length s.
Proof.
  intros H. destruct (le_lt_dec 5 (String.length s)) as [G|G]; trivial.
  rewrite size_aidl, replace_throws in H; [discriminate |].
  unfold size. split; [lia | reflexivity].
Qed.

(** A tactic for the outcomes of the checks. *)
Ltac filter_cases x :=
  let A := fresh "A" in
  let text := fresh "text" in
  let T := fresh "T" in
  let E := fresh "E" in
  destruct (filter_invalid_combinations_spec x)
    as [[A E] | [A (text & T & E)]];
  rewrite E in *.

(** The positional stage writes the input files, the output file, the
    header directory and error text, and nothing else. *)
Lemma positional_arguments_keeps o f tail o' :
  positional_arguments o f tail = Constructed o' ->
  myname_ o' = myname_ o /\ language_ o' = language_ o /\ task_ o' = task_ o
  /\ import_paths_ o' = import_paths_ o
  /\ preprocessed_files_ o' = preprocessed_files_ o
  /\ dependency_file_ o' = dependency_file_ o
  /\ output_dir_ o' = output_dir_ o
  /\ dependency_file_ninja_ o' = dependency_file_ninja_ o
  /\ gen_traces_ o' = gen_traces_ o
  /\ auto_dep_file_ o' = auto_dep_file_ o
  /\ fail_on_parcelable_ o' = fail_on_parcelable_ o
  /\ gen_transaction_names_ o' = gen_transaction_names_ o.
Proof.
  unfold positional_arguments, legacy_arguments, new_arguments.
  destruct (negb f && Task_eqb (task_ o) COMPILE).
  - destruct tail as [|input [|a [|b extra]]]; destruct (language_ o) eqn:L;
      try match goal with
          | |- context [replace ?s ?p ?n ?r] => destruct (replace s p n r)
          end;
      intros H; inversion H; subst; clear H;
      try match goal with
          | |- context [too_many_arguments ?e ?x] =>
              destruct (too_many_arguments_cases e x)
                as [[_ ->] | [_ (text & _ & ->)]]
          end;
      cbn; rewrite ?L; repeat split.
  - destruct (task_ o) eqn:T; destruct tail as [|a [|b tail]];
      intros H; inversion H; subst; clear H;
      try match goal with
          | |- context [filter_invalid_combinations ?x] => filter_cases x
          end;
      cbn; rewrite ?T; repeat split.
Qed.

(** The valid outcomes of the new format. *)
Lemma new_arguments_valid o tail o' :
  input_files_ o = [] -> output_file_ o = "" ->
  new_arguments o tail = Constructed o' -> error_message_ o' = "" ->
  accepted o' /\ input_files_ o' <> []
  /\ (task_ o = COMPILE -> input_files_ o' = tail /\ output_file_ o' = "")
  /\ (task_ o <> COMPILE -> tail = output_file_ o' :: input_files_ o').
Proof.
  intros I O. unfold new_arguments. rewrite I. cbn [app].
  destruct (task_ o) eqn:T; destruct tail as [|a [|b tail]];
    intros H V; inversion H; subst; clear H;
    try (now apply error_message_not_empty in V; [| simpl; discriminate]);
    match goal with
    | |- context [filter_invalid_combinations ?x] => filter_cases x
    end;
    try (now apply error_message_not_empty in V);
    cbn; rewrite ?I, ?O; cbn;
    (split; [exact A |]); (split; [discriminate |]);
    split; intros; try congruence; auto.
Qed.

(** The valid outcomes of the legacy format. *)
Lemma legacy_arguments_valid o tail o' :
  input_files_ o = [] ->
  legacy_arguments o tail = Constructed o' -> error_message_ o' = "" ->
  (language_ o = JAVA ->
   (exists input output,
       tail = [input; output] /\ input_files_ o' = [input]
       /\ output_file_ o' = output)
   \/ (exists input,
          tail = [input] /\ input_files_ o' = [input]
          /\ 5 <= String.length input))
  /\ (language_ o = CPP ->
      exists input header_dir output,
        tail = [input; header_dir; output] /\ input_files_ o' = [input]
        /\ output_header_dir_ o' = header_dir /\ output_file_ o' = output).
Proof.
  intros I. unfold legacy_arguments.
  destruct tail as [|input tail].
  { intros H V; inversion H; subst.
    now apply error_message_not_empty in V; [| simpl; discriminate]. }
  destruct (language_ o) eqn:L.
  - destruct tail as [|output extra].
    + cbn [add_input_file set_input_files input_files_]. rewrite I. cbn [app hd].
      destruct (replace _ _ _ _) as [x|] eqn:R; intros H V; inversion H; subst.
      split; [intros _; right | discriminate].
      exists input. cbn. rewrite I. repeat split.
      eapply replace_returns_five; eauto.
    + intros H V; inversion H; subst; clear H.
      destruct (too_many_arguments_cases extra
                  (set_output_file output (add_input_file input o)))
        as [[-> E] | [_ (text & T & E)]]; rewrite E in *.
      * split; [intros _; left | discriminate].
        exists input, output. cbn. rewrite I. repeat split.
      * now apply error_message_not_empty in V.
  - destruct tail as [|header_dir [|output extra]];
      intros H V; inversion H; subst; clear H;
      try (now apply error_message_not_empty in V; [| simpl; discriminate]).
    destruct (too_many_arguments_cases extra
                (set_output_file output
                   (set_output_header_dir header_dir (add_input_file input o))))
      as [[-> E] | [_ (text & T & E)]]; rewrite E in *.
    + split; [discriminate | intros _].
      exists input, header_dir, output. cbn. rewrite I. repeat split.
    + now apply error_message_not_empty in V.
Qed.

(** ** The whole construction *)

Lemma seen_app c rs1 rs2 : seen c (rs1 ++ rs2)%list = seen c rs1 || seen c rs2.
Proof. unfold seen. apply existsb_app. Qed.

(** The state in which the loop ends, when it started from the initial
    one. *)
Lemma option_loop_initial task0 argv0 lang rs o1 f1 :
  option_loop rs (initial task0 argv0 lang) false = Break o1 f1 ->
  myname_ o1 = argv0 /\ input_files_ o1 = [] /\ output_file_ o1 = ""
  /\ error_message_ o1 = "" /\ f1 = seen "l" rs.
Proof.
  intros H.
  destruct (option_loop_Break_members _ _ _ _ _ H) as (A & B & C & D).
  destruct (option_loop_Break_control _ _ _ _ _ H) as (F & _).
  repeat split; assumption.
Qed.

Lemma legacy_arguments_inputs o tail o' :
  input_files_ o = [] -> legacy_arguments o tail = Constructed o' ->
  List.length (input_files_ o') <= 1.
Proof.
  intros I. unfold legacy_arguments.
  destruct tail as [|input [|a [|b extra]]]; destruct (language_ o);
    try match goal with
        | |- context [replace ?s ?p ?n ?r] => destruct (replace s p n r)
        end;
    intros H; inversion H; subst; clear H;
    try match goal with
        | |- context [too_many_arguments ?e ?x] =>
            destruct (too_many_arguments_cases e x)
              as [[_ ->] | [_ (text & _ & ->)]]
        end;
    cbn; rewrite I; cbn; lia.
Qed.

Lemma new_arguments_output_file o tail o' :
  task_ o = COMPILE -> new_arguments o tail = Constructed o' ->
  output_file_ o' = output_file_ o.
Proof.
  intros T. unfold new_arguments. rewrite T.
  destruct tail; intros H; inversion H; subst; clear H; trivial.
  match goal with
  | |- context [filter_invalid_combinations ?x] => filter_cases x
  end; reflexivity.
Qed.

(** X1.  The checks under "filter out invalid combinations" leave a state
    as it is exactly when it is an accepted one; a state that is not
    accepted gets one message, which is not empty, and no other member
    changes. *)
Theorem checks_accept_exactly :
  forall (o : Options),
    (accepted o <-> filter_invalid_combinations o = o)
    /\ (accepted o
        \/ exists text,
            text <> "" /\ filter_invalid_combinations o = error text o).
Proof.
  intros o.
  destruct (filter_invalid_combinations_spec o) as [[A E] | [A (text & T & E)]].
  - split; [tauto | now left].
  - split; [| right; eauto].
    split; [tauto |]. rewrite E. intros H. now apply error_changes in H.
Qed.

(** X2.  The check of the extension names the first input file that does
    not end with [.aidl], and comes before every other check. *)
Theorem first_bad_input_named :
  forall (o : Options) (good : list string) (bad : string) (rest : list string),
    input_files_ o = (good ++ bad :: rest)%list ->
    Forall is_aidl good -> ~ is_aidl bad ->
    filter_invalid_combinations o = error (expected_aidl bad) o.
Proof.
  intros o good bad rest I G B. unfold filter_invalid_combinations.
  rewrite I, (find_first _ good bad rest); [reflexivity | |].
  - eapply Forall_impl; [| exact G]. intros x Hx. unfold is_aidl in Hx.
    now rewrite Hx.
  - unfold is_aidl in B. now destruct (EndsWith bad ".aidl").
Qed.

Lemma first_bad_input_named_witness :
  filter_invalid_combinations
    (set_input_files ["A.aidl"; "B.txt"; "C.java"] (initial COMPILE "aidl" CPP))
  = error (expected_aidl "B.txt")
      (set_input_files ["A.aidl"; "B.txt"; "C.java"] (initial COMPILE "aidl" CPP)).
Proof.
  apply (first_bad_input_named _ ["A.aidl"] "B.txt" ["C.java"]).
  - reflexivity.
  - repeat constructor.
  - discriminate.
Defined.

(** X3.  A valid configuration has at least one input file. *)
Theorem valid_has_input :
  forall (task0 : Task) (argv0 : string) (args : list string)
         (default_lang : Language) (o : Options),
    valid (Options_Options task0 argv0 args default_lang) o ->
    input_files_ o <> [].
Proof.
  intros task0 argv0 args default_lang o [Hc V]. unfold Options_Options in Hc.
  destruct (getopt_long args) as [rs tail].
  destruct (option_loop rs (initial task0 argv0 default_lang) false)
    as [o1 f1|o1|] eqn:E; try discriminate.
  - destruct (option_loop_initial _ _ _ _ _ _ E) as (_ & I & O & _ & _).
    unfold positional_arguments in Hc.
    destruct (negb f1 && Task_eqb (task_ o1) COMPILE).
    + destruct (legacy_arguments_valid _ _ _ I Hc V) as [J C].
      destruct (language_ o1).
      * destruct (J eq_refl) as [(i & x & _ & -> & _) | (i & _ & -> & _)];
          discriminate.
      * destruct (C eq_refl) as (i & h & x & _ & -> & _). discriminate.
    + now destruct (new_arguments_valid _ _ _ I O Hc V) as (_ & N & _).
  - inversion Hc; subst. now apply option_loop_Return_error in E.
Qed.

Lemma valid_has_input_witness :
  exists o,
    valid (Options_Options COMPILE "aidl" ["--preprocess"; "out"; "A.aidl"] JAVA) o
    /\ input_files_ o <> [].
Proof.
  eexists. split; [split; [vm_compute; reflexivity | reflexivity] |].
  apply (valid_has_input COMPILE "aidl" ["--preprocess"; "out"; "A.aidl"] JAVA).
  split; reflexivity.
Defined.

(** X4.  A configuration that the constructor returns for the task
    COMPILE, valid or not, has no output file or at most one input file:
    the condition of the check "Multiple AIDL files can't be compiled to a
    single output file" is never met. *)
Theorem single_output_file_single_input :
  forall (task0 : Task) (argv0 : string) (args : list string)
         (default_lang : Language) (o : Options),
    Options_Options task0 argv0 args default_lang = Constructed o ->
    task_ o = COMPILE ->
    output_file_ o = "" \/ List.length (input_files_ o) <= 1.
Proof.
  intros task0 argv0 args default_lang o Hc T. unfold Options_Options in Hc.
  destruct (getopt_long args) as [rs tail].
  destruct (option_loop rs (initial task0 argv0 default_lang) false)
    as [o1 f1|o1|] eqn:E; try discriminate.
  - destruct (option_loop_initial _ _ _ _ _ _ E) as (_ & I & O & _ & _).
    destruct (positional_arguments_keeps _ _ _ _ Hc) as (_ & _ & T1 & _).
    unfold positional_arguments in Hc.
    destruct (negb f1 && Task_eqb (task_ o1) COMPILE).
    + right. eapply legacy_arguments_inputs; eauto.
    + left. rewrite <- O. eapply new_arguments_output_file; eauto. congruence.
  - inversion Hc; subst.
    apply option_loop_Return_inv in E
      as (rs1 & r & rs2 & o2 & f2 & text & _ & L & _ & ->).
    destruct (option_loop_initial _ _ _ _ _ _ L) as (_ & _ & O & _).
    now left.
Qed.

Lemma single_output_file_single_input_witness :
  exists o,
    Options_Options COMPILE "aidl" ["--lang=java"; "A.aidl"; "B.aidl"] JAVA
    = Constructed o
    /\ (output_file_ o = "" \/ List.length (input_files_ o) <= 1).
Proof.
  eexists. split; [vm_compute; reflexivity |].
  apply (single_output_file_single_input COMPILE "aidl"
           ["--lang=java"; "A.aidl"; "B.aidl"] JAVA);
    reflexivity.
Defined.

(** X5.  A valid configuration that came through the new format (there was
    a [--lang], or the task did not start at COMPILE) is an accepted one:
    for the task COMPILE it has the output directories its language asks
    for, and a dependency file only with a single input. *)
Theorem valid_new_format_accepted :
  forall (task0 : Task) (argv0 : string) (args : list string)
         (default_lang : Language) (o : Options),
    valid (Options_Options task0 argv0 args default_lang) o ->
    seen "l" (fst (getopt_long args)) = true \/ task0 <> COMPILE ->
    accepted o.
Proof.
  intros task0 argv0 args default_lang o [Hc V] Hnew.
  unfold Options_Options in Hc.
  destruct (getopt_long args) as [rs tail]; simpl in Hnew.
  destruct (option_loop rs (initial task0 argv0 default_lang) false)
    as [o1 f1|o1|] eqn:E; try discriminate.
  - destruct (option_loop_initial _ _ _ _ _ _ E) as (_ & I & O & _ & F).
    assert (N : positional_arguments o1 f1 tail = new_arguments o1 tail).
    { destruct Hnew as [S|Ht].
      - unfold positional_arguments. now rewrite F, S.
      - eapply legacy_format_needs_COMPILE; eauto. }
    rewrite N in Hc.
    now destruct (new_arguments_valid _ _ _ I O Hc V) as (A & _).
  - inversion Hc; subst. now apply option_loop_Return_error in E.
Qed.

Lemma valid_new_format_accepted_witness :
  exists o,
    valid (Options_Options COMPILE "aidl"
             ["--lang=cpp"; "-o"; "out"; "-h"; "include"; "A.aidl"] JAVA) o
    /\ accepted o.
Proof.
  eexists. split; [split; [vm_compute; reflexivity | reflexivity] |].
  apply (valid_new_format_accepted COMPILE "aidl"
           ["--lang=cpp"; "-o"; "out"; "-h"; "include"; "A.aidl"] JAVA).
  - split; reflexivity.
  - left; reflexivity.
Defined.

(** X6.  The process ends inside the constructor only through [--help]:
    the status is 0 and what was written is the usage text, not empty,
    under the name the program was called by. *)
Theorem exit_only_by_help :
  forall (task0 : Task) (argv0 : string) (args : list string)
         (default_lang : Language) (status : Z) (cerr : string),
    Options_Options task0 argv0 args default_lang = Exited status cerr ->
    status = 0%Z /\ cerr <> ""
    /\ seen "e" (fst (getopt_long args)) = true
    /\ exists o, cerr = GetUsage o /\ myname_ o = argv0.
Proof.
  intros task0 argv0 args default_lang status cerr Hc.
  unfold Options_Options in Hc.
  destruct (getopt_long args) as [rs tail]; simpl.
  destruct (option_loop rs (initial task0 argv0 default_lang) false)
    as [o1 f1|o1|s c] eqn:E; try discriminate.
  - unfold positional_arguments, legacy_arguments, new_arguments in Hc.
    destruct (negb f1 && Task_eqb (task_ o1) COMPILE);
      destruct (task_ o1); destruct (language_ o1);
      destruct tail as [|a [|b [|d tail]]];
      try match type of Hc with
          | context [replace ?s ?p ?n ?r] => destruct (replace s p n r)
          end;
      discriminate.
  - inversion Hc; subst.
    apply option_loop_Exit_inv in E as (rs1 & a & rs2 & o1 & f1 & -> & L & S & ->).
    destruct (option_loop_initial _ _ _ _ _ _ L) as (M & _).
    repeat split; trivial.
    + apply GetUsage_not_empty.
    + rewrite seen_app, seen_cons. cbn. now rewrite orb_true_r.
    + eauto.
Qed.

Lemma exit_only_by_help_witness :
  (0 = 0)%Z /\ GetUsage (initial COMPILE "aidl" JAVA) <> ""
  /\ seen "e" (fst (getopt_long ["A.aidl"; "--help"])) = true
  /\ exists o, GetUsage (initial COMPILE "aidl" JAVA) = GetUsage o
               /\ myname_ o = "aidl".
Proof.
  apply (exit_only_by_help COMPILE "aidl" ["A.aidl"; "--help"] JAVA).
  reflexivity.
Defined.

(** X7.  The constructor leaves through [std::out_of_range] only in the
    legacy Java format (the task starts at COMPILE, the default language is
    JAVA, there is no [--lang]) with one positional argument of fewer than
    five characters. *)
Theorem throws_only_legacy_java_short :
  forall (task0 : Task) (argv0 : string) (args : list string)
         (default_lang : Language),
    Options_Options task0 argv0 args default_lang = OutOfRange ->
    task0 = COMPILE /\ default_lang = JAVA
    /\ seen "l" (fst (getopt_long args)) = false
    /\ exists input,
        snd (getopt_long args) = [input] /\ String.length input < 5.
Proof.
  intros task0 argv0 args default_lang Hc. unfold Options_Options in Hc.
  destruct (getopt_long args) as [rs tail]; simpl.
  destruct (option_loop rs (initial task0 argv0 default_lang) false)
    as [o1 f1|o1|s c] eqn:E; try discriminate.
  destruct (option_loop_initial _ _ _ _ _ _ E) as (_ & I & _ & _ & F).
  destruct (option_loop_Break_control _ _ _ _ _ E) as (_ & _ & C).
  unfold positional_arguments in Hc.
  destruct (negb f1 && Task_eqb (task_ o1) COMPILE) eqn:B.
  - apply andb_prop in B as [B1 B2]. apply negb_true_iff in B1.
    rewrite F in B1. destruct (C B1) as [L _]. simpl in L.
    assert (T0 : task0 = COMPILE).
    { destruct task0; trivial;
        (assert (N : task_ o1 <> COMPILE)
          by (eapply option_loop_Break_task; [| exact E | congruence];
              intros _; discriminate));
        destruct (task_ o1); try discriminate; congruence. }
    unfold legacy_arguments in Hc.
    destruct tail as [|input [|a [|b extra]]]; destruct (language_ o1) eqn:L1;
      try discriminate.
    cbn [add_input_file set_input_files input_files_] in Hc.
    rewrite I in Hc. cbn [app hd] in Hc.
    destruct (replace _ _ _ _) as [x|] eqn:R; [discriminate |].
    repeat split; trivial; [congruence |].
    exists input. split; [reflexivity |].
    destruct (le_lt_dec 5 (String.length input)) as [G|G]; trivial.
    exfalso. unfold replace in R.
    destruct (Z.ltb_spec (size input) (size_t_sub (size input) (size ".aidl")))
      as [W|W]; [| discriminate].
    rewrite size_aidl in W. unfold size_t_sub, size in W.
    assert (M : (0 < size_t_modulus)%Z) by reflexivity.
    pose proof (Z.mod_le (Z.of_nat (String.length input) - 5) size_t_modulus) as Q.
    lia.
  - unfold new_arguments in Hc.
    destruct (task_ o1); destruct tail as [|a [|b tail]]; discriminate.
Qed.

Lemma throws_only_legacy_java_short_witness :
  COMPILE = COMPILE /\ JAVA = JAVA
  /\ seen "l" (fst (getopt_long ["-b"; "Foo"])) = false
  /\ exists input,
      snd (getopt_long ["-b"; "Foo"]) = [input] /\ String.length input < 5.
Proof.
  apply (throws_only_legacy_java_short COMPILE "aidl" ["-b"; "Foo"] JAVA).
  reflexivity.
Defined.

(** The language and the task of a configuration that the constructor
    returns are those of the state in which the loop stopped. *)
Lemma Constructed_inv task0 argv0 args default_lang o :
  Options_Options task0 argv0 args default_lang = Constructed o ->
  exists rs1 rs2 o1 f1,
    fst (getopt_long args) = (rs1 ++ rs2)%list
    /\ option_loop rs1 (initial task0 argv0 default_lang) false = Break o1 f1
    /\ language_ o = language_ o1 /\ task_ o = task_ o1.
Proof.
  intros Hc. unfold Options_Options in Hc.
  destruct (getopt_long args) as [rs tail]; simpl.
  destruct (option_loop rs (initial task0 argv0 default_lang) false)
    as [o1 f1|o1|s c] eqn:E; try discriminate.
  - destruct (positional_arguments_keeps _ _ _ _ Hc) as (_ & L & T & _).
    exists rs, [], o1, f1. rewrite app_nil_r. auto.
  - inversion Hc; subst.
    apply option_loop_Return_inv in E
      as (rs1 & r & rs2 & o2 & f2 & text & -> & L & _ & ->).
    exists rs1, (r :: rs2), o2, f2. auto.
Qed.

(** X8.  The language of a configuration that the constructor returns is
    the default language when that is CPP, and when there is no [--lang]
    among the options. *)
Theorem language_is_default :
  forall (task0 : Task) (argv0 : string) (args : list string)
         (default_lang : Language) (o : Options),
    Options_Options task0 argv0 args default_lang = Constructed o ->
    default_lang = CPP \/ seen "l" (fst (getopt_long args)) = false ->
    language_ o = default_lang.
Proof.
  intros task0 argv0 args default_lang o Hc H.
  apply Constructed_inv in Hc as (rs1 & rs2 & o1 & f1 & R & L & -> & _).
  destruct H as [-> | S].
  - eapply option_loop_Break_CPP; [| exact L]. reflexivity.
  - rewrite R, seen_app in S. apply orb_false_elim in S as [S _].
    now destruct (option_loop_Break_control _ _ _ _ _ L) as (_ & _ & C);
      destruct (C S).
Qed.

Lemma language_is_default_witness :
  exists o,
    Options_Options COMPILE "aidl-cpp" ["--preprocess"; "-I"; "x"] CPP
    = Constructed o
    /\ language_ o = CPP.
Proof.
  eexists. split; [vm_compute; reflexivity |].
  apply (language_is_default COMPILE "aidl-cpp" ["--preprocess"; "-I"; "x"] CPP);
    [reflexivity | left; reflexivity].
Defined.

(** X9.  The task of a configuration that the constructor returns is
    UNSPECIFIED only if it started so; and a task that starts at
    UNSPECIFIED stays there when there is no [--lang] among the options,
    whatever [--preprocess] and [--dumpapi] there are. *)
Theorem task_unspecified_from_the_start :
  forall (task0 : Task) (argv0 : string) (args : list string)
         (default_lang : Language) (o : Options),
    Options_Options task0 argv0 args default_lang = Constructed o ->
    (task_ o = UNSPECIFIED -> task0 = UNSPECIFIED)
    /\ (task0 = UNSPECIFIED -> seen "l" (fst (getopt_long args)) = false ->
        task_ o = UNSPECIFIED).
Proof.
  intros task0 argv0 args default_lang o Hc.
  apply Constructed_inv in Hc as (rs1 & rs2 & o1 & f1 & R & L & _ & ->).
  destruct (option_loop_Break_control _ _ _ _ _ L) as (_ & K & C).
  simpl in K, C. split.
  - intros U. destruct task0; trivial; exfalso; apply K; trivial; discriminate.
  - intros T0 S. rewrite R, seen_app in S. apply orb_false_elim in S as [S _].
    now destruct (C S) as [_ U]; apply U.
Qed.

Lemma task_unspecified_from_the_start_witness :
  exists o,
    Options_Options UNSPECIFIED "aidl" ["--dumpapi"; "api.txt"; "A.aidl"] JAVA
    = Constructed o
    /\ task_ o = UNSPECIFIED.
Proof.
  eexists. split; [vm_compute; reflexivity |].
  apply (task_unspecified_from_the_start UNSPECIFIED "aidl"
           ["--dumpapi"; "api.txt"; "A.aidl"] JAVA);
    reflexivity.
Defined.

(** A valid configuration came through the whole loop and the positional
    stage. *)
Lemma valid_inv task0 argv0 args default_lang o :
  valid (Options_Options task0 argv0 args default_lang) o ->
  exists o1 f1,
    option_loop (fst (getopt_long args)) (initial task0 argv0 default_lang) false
    = Break o1 f1
    /\ positional_arguments o1 f1 (snd (getopt_long args)) = Constructed o.
Proof.
  intros [Hc V]. unfold Options_Options in Hc.
  destruct (getopt_long args) as [rs tail]; simpl.
  destruct (option_loop rs (initial task0 argv0 default_lang) false)
    as [o1 f1|o1|s c] eqn:E; try discriminate.
  - eauto.
  - inversion Hc; subst. now apply option_loop_Return_error in E.
Qed.

(** X10.  In a valid configuration the import paths are the values of the
    options [-I], trimmed, in the order of the command line, and the
    preprocessed files are those of the options [-p]. *)
Theorem search_paths_in_order :
  forall (task0 : Task) (argv0 : string) (args : list string)
         (default_lang : Language) (o : Options),
    valid (Options_Options task0 argv0 args default_lang) o ->
    import_paths_ o = map Trim (values "I" (fst (getopt_long args)))
    /\ preprocessed_files_ o = map Trim (values "p" (fst (getopt_long args))).
Proof.
  intros task0 argv0 args default_lang o V.
  apply valid_inv in V as (o1 & f1 & L & P).
  destruct (positional_arguments_keeps _ _ _ _ P) as (_ & _ & _ & -> & -> & _).
  now destruct (option_loop_Break_effect _ _ _ _ _ L) as (-> & -> & _).
Qed.

Lemma search_paths_in_order_witness :
  exists o,
    valid (Options_Options COMPILE "aidl"
             ["-I"; " a "; "--lang=java"; "-Ib"; "-o"; "out"; "X.aidl";
              "--include=c"; "-p"; "pre"] JAVA) o
    /\ import_paths_ o = ["a"; "b"; "c"] /\ preprocessed_files_ o = ["pre"].
Proof.
  eexists. split; [split; [vm_compute; reflexivity | reflexivity] |].
  apply (search_paths_in_order COMPILE "aidl"
           ["-I"; " a "; "--lang=java"; "-Ib"; "-o"; "out"; "X.aidl";
            "--include=c"; "-p"; "pre"] JAVA).
  split; reflexivity.
Defined.

(** X11.  Of several [-d], and of several [-o], the last one counts: in a
    valid configuration the dependency file and the output directory are
    the trimmed value of the last such option, and empty when there is
    none.  The same holds of the header directory and [-h] when there is
    a [--lang]. *)
Theorem last_value_wins :
  forall (task0 : Task) (argv0 : string) (args : list string)
         (default_lang : Language) (o : Options),
    valid (Options_Options task0 argv0 args default_lang) o ->
    dependency_file_ o = last (map Trim (values "d" (fst (getopt_long args)))) ""
    /\ output_dir_ o = last (map Trim (values "o" (fst (getopt_long args)))) ""
    /\ (seen "l" (fst (getopt_long args)) = true ->
        output_header_dir_ o
        = last (map Trim (values "h" (fst (getopt_long args)))) "").
Proof.
  intros task0 argv0 args default_lang o V.
  pose proof V as [_ Ve].
  apply valid_inv in V as (o1 & f1 & L & P).
  destruct (positional_arguments_keeps _ _ _ _ P)
    as (_ & _ & _ & _ & _ & -> & -> & _).
  destruct (option_loop_Break_effect _ _ _ _ _ L) as (_ & _ & -> & -> & H & _).
  repeat split. intros S.
  destruct (option_loop_initial _ _ _ _ _ _ L) as (_ & I & O & _ & F).
  change (output_header_dir_ (initial task0 argv0 default_lang)) with "" in H.
  rewrite <- H. unfold positional_arguments in P. rewrite F, S in P. simpl in P.
  unfold new_arguments in P.
  destruct (task_ o1); destruct (snd (getopt_long args)) as [|a [|b tail]];
    inversion P; subst; clear P; trivial;
    match goal with
    | |- context [filter_invalid_combinations ?x] => filter_cases x
    end; reflexivity.
Qed.

Lemma last_value_wins_witness :
  exists o,
    valid (Options_Options COMPILE "aidl"
             ["--lang=java"; "-o"; "first"; "-d"; "a.d"; "--out= second ";
              "--dep"; "b.d"; "X.aidl"] JAVA) o
    /\ dependency_file_ o = "b.d" /\ output_dir_ o = "second".
Proof.
  eexists. split; [split; [vm_compute; reflexivity | reflexivity] |].
  destruct (last_value_wins COMPILE "aidl"
              ["--lang=java"; "-o"; "first"; "-d"; "a.d"; "--out= second ";
               "--dep"; "b.d"; "X.aidl"] JAVA
              _ (conj eq_refl eq_refl)) as (D & O & _).
  split; [exact D | exact O].
Defined.

(** X12.  In a valid configuration each of the five switches is on exactly
    when its option is on the command line: [--ninja], [-t]/[--trace],
    [-a], [-b] and [--transaction_names]. *)
Theorem switches_follow_options :
  forall (task0 : Task) (argv0 : string) (args : list string)
         (default_lang : Language) (o : Options),
    valid (Options_Options task0 argv0 args default_lang) o ->
    dependency_file_ninja_ o = seen "n" (fst (getopt_long args))
    /\ gen_traces_ o = seen "t" (fst (getopt_long args))
    /\ auto_dep_file_ o = seen "a" (fst (getopt_long args))
    /\ fail_on_parcelable_ o = seen "b" (fst (getopt_long args))
    /\ gen_transaction_names_ o = seen "c" (fst (getopt_long args)).
Proof.
  intros task0 argv0 args default_lang o V.
  apply valid_inv in V as (o1 & f1 & L & P).
  destruct (positional_arguments_keeps _ _ _ _ P)
    as (_ & _ & _ & _ & _ & _ & _ & -> & -> & -> & -> & ->).
  destruct (option_loop_Break_effect _ _ _ _ _ L)
    as (_ & _ & _ & _ & _ & -> & -> & -> & -> & ->).
  repeat split.
Qed.

Lemma switches_follow_options_witness :
  exists o,
    valid (Options_Options COMPILE "aidl"
             ["-ab"; "--ninja"; "Foo.aidl"; "Foo.java"] JAVA) o
    /\ dependency_file_ninja_ o = true /\ gen_traces_ o = false
    /\ auto_dep_file_ o = true /\ fail_on_parcelable_ o = true
    /\ gen_transaction_names_ o = false.
Proof.
  eexists. split; [split; [vm_compute; reflexivity | reflexivity] |].
  apply (switches_follow_options COMPILE "aidl"
           ["-ab"; "--ninja"; "Foo.aidl"; "Foo.java"] JAVA).
  split; reflexivity.
Defined.

(** ** The messages of the loop *)

(** X13.  Every option character that [getopt_long] returns for the two
    tables of the constructor has its [case] in the [switch], and the only
    one of them whose case can end with an error is that of [--lang]: an
    "Invalid argument" comes from ['?'] alone. *)
Theorem only_lang_is_refused :
  forall (args : list string) (c : ascii) (a : string),
    In (Getopt.Opt c a) (fst (getopt_long args)) ->
    In c handled
    /\ forall o f o', switch (Getopt.Opt c a) o f = Return o' -> c = "l"%char.
Proof.
  intros args c a Hin.
  pose proof (GetoptFacts.getopt_long_known args) as K.
  rewrite Forall_forall in K. apply K in Hin. simpl in Hin.
  split; [exact Hin |]. intros o f o' H.
  unfold handled in Hin. simpl in Hin.
  repeat (destruct Hin as [<- | Hin]; [try reflexivity |]);
    try contradiction;
    unfold switch in H; simpl in H;
    try destruct (Task_eqb (task_ o) UNSPECIFIED); discriminate.
Qed.

Lemma only_lang_is_refused_witness :
  In "d"%char handled
  /\ forall o f o', switch (Getopt.Opt "d" "x.d") o f = Return o' -> "d"%char = "l"%char.
Proof.
  apply (only_lang_is_refused ["A.aidl"; "--dep"; "x.d"]).
  left; reflexivity.
Defined.

(** X14.  When the loop comes to a [--lang], in any spelling, while the
    language is JAVA (every option before it was handled without a
    [return] or the [exit]), and the value of the flag, once trimmed, is
    neither [java] nor [cpp], the constructor returns with the error text
    [Unsupported language: '...'], which names the trimmed value. *)
Theorem unsupported_language_named :
  forall (task0 : Task) (argv0 : string) (args : list string)
         (default_lang : Language) (v : string)
         (rs1 rs2 : list Getopt.result) (o : Options) (f : bool),
    fst (getopt_long args) = (rs1 ++ Getopt.Opt "l" v :: rs2)%list ->
    option_loop rs1 (initial task0 argv0 default_lang) false = Break o f ->
    language_ o = JAVA -> Trim v <> "java" -> Trim v <> "cpp" ->
    exists o',
      Options_Options task0 argv0 args default_lang = Constructed o'
      /\ error_message_ o'
         = "Unsupported language: '" ++ Trim v ++ "'" ++ endl.
Proof.
  intros task0 argv0 args default_lang v rs1 rs2 o f Hrs Hloop L J C.
  destruct (option_loop_Break_members _ _ _ _ _ Hloop) as (_ & _ & _ & He).
  exists (error ("Unsupported language: '" ++ Trim v ++ "'" ++ endl) o).
  split.
  - unfold Options_Options. destruct (getopt_long args) as [rs tail].
    simpl in Hrs. subst rs.
    rewrite (option_loop_app _ _ _ _ _ _ Hloop). cbn [option_loop].
    unfold switch. simpl Ascii.eqb. cbv iota. rewrite L.
    apply String.eqb_neq in J, C. now rewrite J, C.
  - now rewrite error_message_error, He.
Qed.

Lemma unsupported_language_named_witness :
  exists o',
    Options_Options COMPILE "aidl"
      ["-I"; "inc"; "--lang=java"; "--lang"; " rust "; "A.aidl"] JAVA
    = Constructed o'
    /\ error_message_ o'
       = "Unsupported language: '" ++ Trim " rust " ++ "'" ++ endl.
Proof.
  apply (unsupported_language_named COMPILE "aidl"
           ["-I"; "inc"; "--lang=java"; "--lang"; " rust "; "A.aidl"] JAVA
           " rust "
           [Getopt.Opt "I" "inc"; Getopt.Opt "l" "java"] []
           (set_task COMPILE
              (set_language JAVA
                 (add_import_path "inc" (initial COMPILE "aidl" JAVA))))
           true);
    try reflexivity; discriminate.
Defined.

(** Positional arguments in front of the options change nothing but the
    positional arguments. *)
Lemma scan_positional_prefix (pre xs : list string) :
  Forall positional pre ->
  Getopt.scan optstring long_options (pre ++ xs)%list
  = (fst (Getopt.scan optstring long_options xs),
     (pre ++ snd (Getopt.scan optstring long_options xs))%list).
Proof.
  induction 1 as [|x pre Hx _ IH]; cbn [app].
  - now destruct (Getopt.scan optstring long_options xs).
  - cbn [Getopt.scan]. unfold positional in Hx. now rewrite Hx, IH.
Qed.

(** X15.  A long option that the table does not have, or that abbreviates
    two of its entries, and that is the first option of the command line
    (only positional arguments come before it), ends construction with
    "Invalid argument"; when another element follows the option, that
    element is the one the message names, since [optind] has moved on,
    not the option itself. *)
Theorem invalid_option_names_next :
  forall (task0 : Task) (argv0 : string) (default_lang : Language)
         (pre : list string) (c : ascii) (body : string)
         (next : string) (more : list string),
    Forall positional pre ->
    (forall p,
        Getopt.lookup long_options (fst (Getopt.split_name (String c body)))
        <> Getopt.Found p) ->
    exists o',
      Options_Options task0 argv0
        (pre ++ ("--" ++ String c body) :: next :: more) default_lang
      = Constructed o'
      /\ error_message_ o' = "Invalid argument: '" ++ next ++ "'" ++ endl.
Proof.
  intros task0 argv0 default_lang pre c body next more P N.
  unfold Options_Options, getopt_long.
  rewrite (scan_positional_prefix _ _ P).
  remember (next :: more) as rest eqn:R.
  cbn [Getopt.scan append Getopt.classify]. unfold Getopt.long_option.
  destruct (Getopt.split_name (String c body)) as [n v]. simpl in N.
  destruct (Getopt.lookup long_options n) as [p| |];
    [now destruct (N p) | |];
    destruct (Getopt.scan optstring long_options rest);
    subst rest; eexists; split; reflexivity.
Qed.

Lemma invalid_option_names_next_witness :
  exists o',
    Options_Options COMPILE "aidl"
      (["A.aidl"] ++ ("--" ++ String "p" "re") :: "B.aidl" :: ["-b"]) JAVA
    = Constructed o'
    /\ error_message_ o' = "Invalid argument: '" ++ "B.aidl" ++ "'" ++ endl.
Proof.
  apply (invalid_option_names_next COMPILE "aidl" JAVA ["A.aidl"] "p" "re"
           "B.aidl" ["-b"]).
  - repeat constructor.
  - intros p. discriminate.
Defined.

(** ** Command lines that succeed, and two that do not *)

Lemma getopt_long_positional (xs : list string) :
  Forall positional xs -> Getopt.scan optstring long_options xs = ([], xs).
Proof.
  induction 1 as [|x xs Hx _ IH]; [reflexivity |].
  cbn [Getopt.scan]. unfold positional in Hx. now rewrite Hx, IH.
Qed.

Lemma accepted_filter o : accepted o -> filter_invalid_combinations o = o.
Proof.
  intros A.
  destruct (filter_invalid_combinations_spec o) as [[_ E] | [N _]]; tauto.
Qed.

Lemma find_not_aidl (inputs : list string) :
  Forall is_aidl inputs ->
  find (fun input => negb (EndsWith input ".aidl")) inputs = None.
Proof.
  induction 1 as [|x xs Hx _ IH]; [reflexivity |].
  simpl. unfold is_aidl in Hx. now rewrite Hx.
Qed.

Lemma filter_dependency_conflict o :
  Forall is_aidl (input_files_ o) -> task_ o = COMPILE -> language_ o = JAVA ->
  output_dir_ o <> "" -> output_header_dir_ o = "" -> output_file_ o = "" ->
  dependency_file_ o <> "" -> 1 < List.length (input_files_ o) ->
  filter_invalid_combinations o = error dependency_conflict o.
Proof.
  intros A T L D H O P M. unfold filter_invalid_combinations.
  rewrite (find_not_aidl _ A), T, L. simpl.
  destruct (empty_spec (output_dir_ o)); [congruence |].
  destruct (empty_spec (output_header_dir_ o)); [| congruence].
  destruct (empty_spec (output_file_ o)); [| congruence].
  destruct (empty_spec (dependency_file_ o)); [congruence |].
  destruct (Nat.ltb_spec 1 (List.length (input_files_ o))); [| lia].
  reflexivity.
Qed.

(** The options of the command lines below, as [getopt_long] reads them
    in front of positional arguments. *)
Lemma getopt_long_options_then_positional (opts inputs : list string) rs :
  Forall positional inputs ->
  (forall rest,
      Getopt.scan optstring long_options (opts ++ rest)%list
      = ((rs ++ fst (Getopt.scan optstring long_options rest))%list,
         snd (Getopt.scan optstring long_options rest))) ->
  getopt_long (opts ++ inputs)%list = (rs, inputs).
Proof.
  intros P H. unfold getopt_long.
  now rewrite H, (getopt_long_positional _ P), app_nil_r.
Qed.

Lemma scan_lang_java_out out rest :
  Getopt.scan optstring long_options (["--lang=java"; "-o"; out] ++ rest)%list
  = (([Getopt.Opt "l" "java"; Getopt.Opt "o" out]
      ++ fst (Getopt.scan optstring long_options rest))%list,
     snd (Getopt.scan optstring long_options rest)).
Proof.
  simpl Getopt.scan. now destruct (Getopt.scan optstring long_options rest).
Qed.

Lemma scan_lang_cpp_out_header out hdr rest :
  Getopt.scan optstring long_options
    (["--lang=cpp"; "-o"; out; "-h"; hdr] ++ rest)%list
  = (([Getopt.Opt "l" "cpp"; Getopt.Opt "o" out; Getopt.Opt "h" hdr]
      ++ fst (Getopt.scan optstring long_options rest))%list,
     snd (Getopt.scan optstring long_options rest)).
Proof.
  simpl Getopt.scan. now destruct (Getopt.scan optstring long_options rest).
Qed.

Lemma scan_lang_java_out_dep out dep rest :
  Getopt.scan optstring long_options
    (["--lang=java"; "-o"; out; "-d"; dep] ++ rest)%list
  = (([Getopt.Opt "l" "java"; Getopt.Opt "o" out; Getopt.Opt "d" dep]
      ++ fst (Getopt.scan optstring long_options rest))%list,
     snd (Getopt.scan optstring long_options rest)).
Proof.
  simpl Getopt.scan. now destruct (Getopt.scan optstring long_options rest).
Qed.

Lemma scan_flag flag c rest :
  (flag, c) = ("--preprocess", "s"%char) \/ (flag, c) = ("--dumpapi", "u"%char) ->
  Getopt.scan optstring long_options ([flag] ++ rest)%list
  = (([Getopt.Opt c ""] ++ fst (Getopt.scan optstring long_options rest))%list,
     snd (Getopt.scan optstring long_options rest)).
Proof.
  intros [H|H]; inversion H; subst; simpl Getopt.scan;
    now destruct (Getopt.scan optstring long_options rest).
Qed.

(** The construction, once the loop has ended with [--lang] found. *)
Lemma Options_Options_new_format task0 argv0 args default_lang rs tail o1 :
  getopt_long args = (rs, tail) ->
  option_loop rs (initial task0 argv0 default_lang) false = Break o1 true ->
  Options_Options task0 argv0 args default_lang = new_arguments o1 tail.
Proof.
  intros G L. unfold Options_Options. now rewrite G, L.
Qed.

(** X16.  With the default language JAVA, the new format of a compilation
    succeeds: [--lang=java -o DIR] followed by one or more inputs, and
    [--lang=cpp -o DIR -h HEADERS] followed by such inputs, give a valid
    configuration for the task COMPILE with the trimmed directories and
    the inputs in their order.  The directories are not blank; the inputs
    end with [.aidl] and are positional arguments (none starts with [-],
    unless it is [-] alone). *)
Theorem new_format_compile_succeeds :
  forall (task0 : Task) (argv0 : string) (out hdr : string)
         (inputs : list string),
    Trim out <> "" -> Trim hdr <> "" -> inputs <> [] ->
    Forall positional inputs -> Forall is_aidl inputs ->
    (exists o,
        valid (Options_Options task0 argv0
                 ("--lang=java" :: "-o" :: out :: inputs) JAVA) o
        /\ task_ o = COMPILE /\ language_ o = JAVA
        /\ output_dir_ o = Trim out /\ input_files_ o = inputs)
    /\ (exists o,
           valid (Options_Options task0 argv0
                    ("--lang=cpp" :: "-o" :: out :: "-h" :: hdr :: inputs) JAVA) o
           /\ task_ o = COMPILE /\ language_ o = CPP
           /\ output_dir_ o = Trim out /\ output_header_dir_ o = Trim hdr
           /\ input_files_ o = inputs).
Proof.
  intros task0 argv0 out hdr inputs D H N P A. split.
  - pose proof (getopt_long_options_then_positional
                  ["--lang=java"; "-o"; out] inputs _ P
                  (scan_lang_java_out out)) as G.
    cbn [app] in G.
    rewrite (Options_Options_new_format _ _ _ _ _ _
               (set_output_dir (Trim out)
                  (set_task COMPILE (set_language JAVA (initial task0 argv0 JAVA))))
               G) by reflexivity.
    unfold new_arguments. cbn [task_ set_output_dir set_task].
    destruct inputs as [|a inputs]; [congruence |].
    rewrite accepted_filter.
    + eexists. split; [split; reflexivity | repeat split].
    + unfold accepted. cbn. split; [exact A |].
      repeat split; intros; congruence.
  - pose proof (getopt_long_options_then_positional
                  ["--lang=cpp"; "-o"; out; "-h"; hdr] inputs _ P
                  (scan_lang_cpp_out_header out hdr)) as G.
    cbn [app] in G.
    rewrite (Options_Options_new_format _ _ _ _ _ _
               (set_output_header_dir (Trim hdr)
                  (set_output_dir (Trim out)
                     (set_task COMPILE
                        (set_language CPP (initial task0 argv0 JAVA)))))
               G) by reflexivity.
    unfold new_arguments. cbn [task_ set_output_header_dir set_output_dir set_task].
    destruct inputs as [|a inputs]; [congruence |].
    rewrite accepted_filter.
    + eexists. split; [split; reflexivity | repeat split].
    + unfold accepted. cbn. split; [exact A |].
      repeat split; intros; congruence.
Qed.

Lemma new_format_compile_succeeds_witness :
  exists o,
    valid (Options_Options COMPILE "aidl"
             ("--lang=java" :: "-o" :: " gen " :: ["a/B.aidl"; "C.aidl"]) JAVA) o
    /\ task_ o = COMPILE /\ language_ o = JAVA
    /\ output_dir_ o = Trim " gen " /\ input_files_ o = ["a/B.aidl"; "C.aidl"].
Proof.
  apply (new_format_compile_succeeds COMPILE "aidl" " gen " "h"
           ["a/B.aidl"; "C.aidl"]);
    try discriminate; repeat constructor.
Defined.

(** X17.  With the default language JAVA, a dependency file goes with one
    input only: [--lang=java -o DIR -d FILE], with directory and file not
    blank, followed by two or more inputs that end with [.aidl] and are
    positional arguments, fails with the message about [-d], and keeps
    what was read so far. *)
Theorem dependency_file_needs_single_input :
  forall (task0 : Task) (argv0 : string) (out dep : string) (a b : string)
         (more : list string),
    Trim out <> "" -> Trim dep <> "" ->
    Forall positional (a :: b :: more) -> Forall is_aidl (a :: b :: more) ->
    exists o,
      Options_Options task0 argv0
        ("--lang=java" :: "-o" :: out :: "-d" :: dep :: a :: b :: more) JAVA
      = Constructed o
      /\ error_message_ o = dependency_conflict
      /\ dependency_file_ o = Trim dep
      /\ input_files_ o = a :: b :: more.
Proof.
  intros task0 argv0 out dep a b more D Dp P A.
  pose proof (getopt_long_options_then_positional
                ["--lang=java"; "-o"; out; "-d"; dep] (a :: b :: more) _ P
                (scan_lang_java_out_dep out dep)) as G.
  cbn [app] in G.
  rewrite (Options_Options_new_format _ _ _ _ _ _
             (set_dependency_file (Trim dep)
                (set_output_dir (Trim out)
                   (set_task COMPILE
                      (set_language JAVA (initial task0 argv0 JAVA)))))
             G) by reflexivity.
  unfold new_arguments. cbn [task_ set_dependency_file set_output_dir set_task].
  rewrite filter_dependency_conflict; cbn; trivial; try lia.
  eexists. split; [reflexivity | repeat split].
Qed.

Lemma dependency_file_needs_single_input_witness :
  exists o,
    Options_Options COMPILE "aidl"
      ("--lang=java" :: "-o" :: "outdir" :: "-d" :: "dep.d"
       :: "A.aidl" :: "B.aidl" :: []) JAVA
    = Constructed o
    /\ error_message_ o = dependency_conflict
    /\ dependency_file_ o = Trim "dep.d"
    /\ input_files_ o = ["A.aidl"; "B.aidl"].
Proof.
  apply (dependency_file_needs_single_input COMPILE "aidl" "outdir" "dep.d"
           "A.aidl" "B.aidl" []);
    try discriminate; repeat constructor.
Defined.

(** X18.  A valid configuration of the legacy format (the task is COMPILE
    and there was no [--lang]) has exactly one input file, and it came
    from one or two positional arguments when the language is JAVA, from
    exactly three when it is CPP. *)
Theorem legacy_arity :
  forall (task0 : Task) (argv0 : string) (args : list string)
         (default_lang : Language) (o : Options),
    valid (Options_Options task0 argv0 args default_lang) o ->
    seen "l" (fst (getopt_long args)) = false -> task_ o = COMPILE ->
    List.length (input_files_ o) = 1
    /\ (language_ o = JAVA ->
        1 <= List.length (snd (getopt_long args)) <= 2)
    /\ (language_ o = CPP -> List.length (snd (getopt_long args)) = 3).
Proof.
  intros task0 argv0 args default_lang o V S T.
  pose proof V as [_ Ve].
  apply valid_inv in V as (o1 & f1 & L & P).
  destruct (option_loop_initial _ _ _ _ _ _ L) as (_ & I & _ & _ & F).
  destruct (positional_arguments_keeps _ _ _ _ P) as (_ & Lg & Tk & _).
  rewrite Lg. rewrite Tk in T.
  unfold positional_arguments in P. rewrite F, S, T in P. simpl in P.
  destruct (legacy_arguments_valid _ _ _ I P Ve) as [J C].
  destruct (language_ o1) eqn:L1.
  - destruct (J eq_refl) as [(i & x & -> & -> & _) | (i & -> & -> & _)];
      (split; [reflexivity |]); (split; [intros _; simpl; lia | discriminate]).
  - destruct (C eq_refl) as (i & h & x & -> & -> & _).
    split; [reflexivity |]. split; [discriminate | reflexivity].
Qed.

Lemma legacy_arity_witness :
  exists o,
    valid (Options_Options COMPILE "aidl-cpp"
             ["-I"; "inc"; "Foo.aidl"; "HeaderDir"; "Foo.cpp"] CPP) o
    /\ List.length (input_files_ o) = 1
    /\ List.length
         (snd (getopt_long ["-I"; "inc"; "Foo.aidl"; "HeaderDir"; "Foo.cpp"])) = 3.
Proof.
  eexists. split; [split; [vm_compute; reflexivity | reflexivity] |].
  destruct (legacy_arity COMPILE "aidl-cpp"
              ["-I"; "inc"; "Foo.aidl"; "HeaderDir"; "Foo.cpp"] CPP
              _ (conj eq_refl eq_refl) eq_refl eq_refl) as (N & _ & C).
  split; [exact N | exact (C eq_refl)].
Defined.

(** X19.  [--preprocess OUTPUT INPUT...] and [--dumpapi OUTPUT INPUT...]
    succeed whenever the task does not start at UNSPECIFIED and the
    inputs, one or more, end with [.aidl]: the first positional argument
    is the output file, the others are the input files, and no output
    directory is asked for. *)
Theorem preprocess_dumpapi_succeed :
  forall (task0 : Task) (argv0 : string) (default_lang : Language)
         (flag : string) (c : ascii) (task : Task)
         (output : string) (inputs : list string),
    (flag, c, task) = ("--preprocess", "s"%char, PREPROCESS)
    \/ (flag, c, task) = ("--dumpapi", "u"%char, DUMPAPI) ->
    task0 <> UNSPECIFIED -> inputs <> [] ->
    Forall positional (output :: inputs) -> Forall is_aidl inputs ->
    exists o,
      valid (Options_Options task0 argv0 (flag :: output :: inputs) default_lang) o
      /\ task_ o = task /\ language_ o = default_lang
      /\ output_file_ o = output /\ input_files_ o = inputs.
Proof.
  intros task0 argv0 default_lang flag c task output inputs F T N P A.
  assert (Fc : (flag, c) = ("--preprocess", "s"%char)
               \/ (flag, c) = ("--dumpapi", "u"%char))
    by (destruct F as [F|F]; inversion F; auto).
  pose proof (getopt_long_options_then_positional
                [flag] (output :: inputs) _ P
                (fun rest => scan_flag flag c rest Fc)) as G.
  cbn [app] in G. unfold Options_Options. rewrite G. cbn [option_loop].
  assert (S : switch (Getopt.Opt c "") (initial task0 argv0 default_lang) false
              = Break (set_task task (initial task0 argv0 default_lang)) false).
  { destruct F as [F|F]; inversion F; subst;
      destruct task0; try congruence; reflexivity. }
  rewrite S. unfold positional_arguments, new_arguments.
  destruct inputs as [|a inputs]; [congruence |].
  set (o := set_input_files (a :: inputs)
              (set_output_file output
                 (set_task task (initial task0 argv0 default_lang)))).
  assert (Q : filter_invalid_combinations o = o).
  { apply accepted_filter. unfold accepted, o. cbn. split; [exact A |].
    destruct F as [F|F]; inversion F; repeat split; intros; discriminate. }
  exists o. split; [split |].
  - cbn [task_ set_task input_files_ initial app negb andb]. fold o.
    destruct F as [F|F]; inversion F; subst; cbn [Task_eqb andb];
      now rewrite Q.
  - reflexivity.
  - repeat split.
Qed.

Lemma preprocess_dumpapi_succeed_witness :
  exists o,
    valid (Options_Options COMPILE "aidl"
             ("--preprocess" :: "framework.aidl" :: ["A.aidl"; "b/C.aidl"]) CPP) o
    /\ task_ o = PREPROCESS /\ language_ o = CPP
    /\ output_file_ o = "framework.aidl"
    /\ input_files_ o = ["A.aidl"; "b/C.aidl"].
Proof.
  apply (preprocess_dumpapi_succeed COMPILE "aidl" CPP "--preprocess" "s"
           PREPROCESS "framework.aidl" ["A.aidl"; "b/C.aidl"]);
    try discriminate; [left; reflexivity | repeat constructor ..].
Defined.

(** X20.  In a valid configuration of the new format no positional
    argument is dropped: for a task other than COMPILE the positional
    arguments are the output file followed by the input files, and for the
    task COMPILE with a [--lang] they are the input files, the output file
    being left empty. *)
Theorem positionals_all_used :
  forall (task0 : Task) (argv0 : string) (args : list string)
         (default_lang : Language) (o : Options),
    valid (Options_Options task0 argv0 args default_lang) o ->
    (task_ o <> COMPILE ->
     snd (getopt_long args) = output_file_ o :: input_files_ o)
    /\ (task_ o = COMPILE -> seen "l" (fst (getopt_long args)) = true ->
        snd (getopt_long args) = input_files_ o /\ output_file_ o = "").
Proof.
  intros task0 argv0 args default_lang o V.
  pose proof V as [_ Ve].
  apply valid_inv in V as (o1 & f1 & L & P).
  destruct (option_loop_initial _ _ _ _ _ _ L) as (_ & I & O & _ & F).
  destruct (positional_arguments_keeps _ _ _ _ P) as (_ & _ & Tk & _).
  rewrite Tk. unfold positional_arguments in P. split.
  - intros T.
    assert (B : negb f1 && Task_eqb (task_ o1) COMPILE = false)
      by (destruct (task_ o1); try congruence; apply andb_false_r).
    rewrite B in P.
    now destruct (new_arguments_valid _ _ _ I O P Ve) as (_ & _ & _ & K);
      apply K.
  - intros T S. rewrite F, S in P. simpl in P.
    destruct (new_arguments_valid _ _ _ I O P Ve) as (_ & _ & K & _).
    destruct (K T) as [-> ->]. auto.
Qed.

Lemma positionals_all_used_witness :
  exists o,
    valid (Options_Options COMPILE "aidl"
             ["api.txt"; "--dumpapi"; "A.aidl"; "-I"; "inc"; "B.aidl"] JAVA) o
    /\ snd (getopt_long ["api.txt"; "--dumpapi"; "A.aidl"; "-I"; "inc"; "B.aidl"])
       = output_file_ o :: input_files_ o.
Proof.
  eexists. split; [split; [vm_compute; reflexivity | reflexivity] |].
  apply (positionals_all_used COMPILE "aidl"
           ["api.txt"; "--dumpapi"; "A.aidl"; "-I"; "inc"; "B.aidl"] JAVA);
    [split; reflexivity | discriminate].
Defined.










(** ** The usage text *)

Lemma append_cancel_l (s a b : string) : s ++ a = s ++ b -> a = b.
Proof.
  induction s as [|c s IH]; simpl; intros H; [exact H |].
  injection H as H. now apply IH.
Qed.

(** X22.  The usage text shows the legacy form of the language at hand:
    for one program name, two states have the same usage text exactly when
    they have the same language.  (So [--help] after [--lang=cpp] prints
    the form [INPUT HEADER_DIR OUTPUT], and after none the form of the
    default language.) *)
Theorem usage_shows_language :
  forall (o1 o2 : Options),
    myname_ o1 = myname_ o2 ->
    (GetUsage o1 = GetUsage o2 <-> language_ o1 = language_ o2).
Proof.
  intros o1 o2 N. unfold GetUsage. rewrite N. split.
  - intros H. unfold line in H. rewrite !append_assoc in H.
    destruct (language_ o1), (language_ o2); trivial; exfalso;
      rewrite !append_assoc in H;
      repeat apply append_cancel_l in H;
      simpl in H; discriminate H.
  - now intros ->.
Qed.

Lemma usage_shows_language_witness :
  GetUsage (initial COMPILE "aidl" JAVA)
  = GetUsage (set_gen_traces true (initial COMPILE "aidl" JAVA))
  <-> language_ (initial COMPILE "aidl" JAVA)
      = language_ (set_gen_traces true (initial COMPILE "aidl" JAVA)).
Proof.
  apply (usage_shows_language (initial COMPILE "aidl" JAVA)
           (set_gen_traces true (initial COMPILE "aidl" JAVA))).
  reflexivity.
Defined.
